(** * ClickHouse connector: query validation, execution and result mapping

    A shallow embedding of the Go connector
    ([apps/clickhouse-connector/internal/clickhouse/client.go] and the gRPC
    handler of package [grpc]) together with the properties of its query
    pipeline: the textual safety validator, the positional parameter binder,
    the row materialiser, the facade [GetRetailers] and the result mapper
    [convertToRetailers]. *)

From Stdlib Require Import ZArith Lia Ascii String List Bool.
From stdpp Require Import base gmap strings list fin_maps pretty.

Local Open Scope Z_scope.

(** ** Go strings

    A Go string is a sequence of bytes; it is modelled by [string], whose
    characters are the 256 byte values.  The functions of package [strings]
    that the connector calls are written after the Go standard library:
    [ToLower] and [TrimSpace] have a byte-wise path for ASCII text, and hand
    text with a byte above 0x7F to the Unicode tables.  Those tables are not
    part of the connector; they are the fields of [UnicodeTables]. *)
Module GoStrings.

Class UnicodeTables := {
  (** [strings.Map(unicode.ToLower, s)] *)
  unicode_map_lower : string → string;
  (** [strings.TrimFunc(s, unicode.IsSpace)] *)
  unicode_trim_space : string → string;
  (** [strings.TrimRightFunc(s, unicode.IsSpace)] *)
  unicode_trim_right_space : string → string
}.

(** [c < utf8.RuneSelf] *)
Definition is_ascii (c : ascii) : bool :=
  match c with Ascii _ _ _ _ _ _ _ b7 => negb b7 end.

(** The table [asciiSpace] of package [strings]. *)
Definition asciiSpace (c : ascii) : bool :=
  match c with
  | "009" | "010" | "011" | "012" | "013" | " " => true
  | _ => false
  end%char.

(** ['A' <= c && c <= 'Z'] *)
Definition is_upper (c : ascii) : bool :=
  let n := N_of_ascii c in ((65 <=? n) && (n <=? 90))%N.

(** [c += 'a' - 'A'] on an upper-case letter. *)
Definition lower_byte (c : ascii) : ascii :=
  if is_upper c then ascii_of_N (N_of_ascii c + 32) else c.

Fixpoint all_ascii (s : string) : bool :=
  match s with
  | EmptyString => true
  | String c s' => is_ascii c && all_ascii s'
  end.

Fixpoint map_bytes (f : ascii → ascii) (s : string) : string :=
  match s with
  | EmptyString => EmptyString
  | String c s' => String (f c) (map_bytes f s')
  end.

Definition string_rev (s : string) : string :=
  string_of_list_ascii (rev (list_ascii_of_string s)).

(** The second loop of [TrimSpace], run on the reversed text [r]: [stop]
    moves left over ASCII white space; a byte above 0x7F hands
    [s[start:stop]] to [TrimRightFunc]. *)
Fixpoint trim_right_rev `{UnicodeTables} (r : string) : string :=
  match r with
  | EmptyString => EmptyString
  | String c r' =>
      if negb (is_ascii c) then unicode_trim_right_space (string_rev r)
      else if asciiSpace c then trim_right_rev r'
      else string_rev r
  end.

(** [strings.TrimSpace]: the first loop moves [start] right over ASCII
    white space; a byte above 0x7F hands [s[start:]] to [TrimFunc]. *)
Fixpoint TrimSpace `{UnicodeTables} (s : string) : string :=
  match s with
  | EmptyString => EmptyString
  | String c s' =>
      if negb (is_ascii c) then unicode_trim_space s
      else if asciiSpace c then TrimSpace s'
      else trim_right_rev (string_rev s)
  end.

(** [strings.ToLower] *)
Definition ToLower `{UnicodeTables} (s : string) : string :=
  if all_ascii s then map_bytes lower_byte s else unicode_map_lower s.

(** [strings.HasPrefix] *)
Fixpoint HasPrefix (s prefix : string) {struct prefix} : bool :=
  match prefix with
  | EmptyString => true
  | String p prefix' =>
      match s with
      | EmptyString => false
      | String c s' => Ascii.eqb c p && HasPrefix s' prefix'
      end
  end.

(** [strings.Contains] *)
Fixpoint Contains (s substr : string) : bool :=
  HasPrefix s substr ||
  match s with
  | EmptyString => false
  | String _ s' => Contains s' substr
  end.

(** [fmt.Sprintf("%d", i)] *)
Definition Itoa (i : Z) : string := pretty i.

(** The tables of a runtime whose text is ASCII: they leave their argument
    as it is.  On ASCII text [ToLower] and [TrimSpace] never consult the
    tables (lemmas [ToLower_ascii] and [TrimSpace_ascii]), so evaluating
    the model on an ASCII input with these tables gives what every Go
    runtime gives. *)
Definition ascii_tables : UnicodeTables :=
  {| unicode_map_lower := λ s, s;
     unicode_trim_space := λ s, s;
     unicode_trim_right_space := λ s, s |}.

End GoStrings.
Import GoStrings.

(** ** Values of the driver

    [interface{}] values that [database/sql] hands to a [*interface{}]
    destination, and the strings bound as query arguments. *)

(** [time.Time]: the instant (seconds and nanoseconds since the Unix epoch)
    and the name of its location. *)
Record Time := { t_unix : Z; t_nanosecond : Z; t_location : string }.

Inductive value :=
| VNil
| VString (s : string)
| VInt (n : Z)
| VFloat (bits : Z)
| VBool (b : bool)
| VTime (t : Time)
| VBytes (b : string).

(** ** Package [clickhouse] *)
Module clickhouse.

(** [SQLResult]: [Rows] is a slice of Go maps.  A Go map is a finite map
    without an order of its own, hence a [gmap]. *)
Record SQLResult := {
  Columns : list string;
  Rows : list (gmap string value)
}.

(** What [*sql.Rows] delivers: the outcome of [Columns()], the outcome of
    the [Scan] after each successful [Next()], and the outcome of [Err()]
    once [Next()] has returned false. *)
Record Cursor := {
  cursor_columns : string + list string;
  cursor_scans : list (string + list value);
  cursor_err : option string
}.

(** [db.QueryContext(ctx, query, args...)]: an error message or a cursor.
    Deadlines and cancellation of [ctx] show as errors of the backend. *)
Definition Backend := string → list value → string + Cursor.

(** The world of one call: the backend and what the clock will report as
    [time.Since(start).Milliseconds()]. *)
Record Env := { backend : Backend; elapsed_ms : Z }.

Section Client.
Context `{UnicodeTables}.

Definition dangerousKeywords : list string :=
  [ " drop "; " delete "; " insert "; " update "; " alter ";
    " truncate "; " grant "; " revoke "; " exec "; " execute ";
    "drop table"; "drop database"; "create table"; "create database";
    "alter table"; "truncate table"; "insert into" ].

(** The loop [for _, keyword := range dangerousKeywords] with its early
    return. *)
Fixpoint scan_keywords (queryWithSpaces : string) (keywords : list string)
  : option string :=
  match keywords with
  | [] => None
  | keyword :: rest =>
      if Contains queryWithSpaces keyword
      then Some ("query contains forbidden keyword: " +:+ TrimSpace keyword)
      else scan_keywords queryWithSpaces rest
  end.

(** [ValidateQuery]: [None] is Go's [nil] error. *)
Definition ValidateQuery (query : string) : option string :=
  let queryLower := ToLower (TrimSpace query) in
  if negb (HasPrefix queryLower "select")
  then Some "only SELECT queries are allowed"
  else
    let queryWithSpaces := " " +:+ queryLower +:+ " " in
    scan_keywords queryWithSpaces dangerousKeywords.

(** The loop [for i := 1; i <= len(parameters); i++]: [n] iterations are
    left, [i] is the loop variable. *)
Fixpoint bind_loop (n : nat) (i : Z) (parameters : gmap string string)
    (args : list value) : list value :=
  match n with
  | O => args
  | S n' =>
      let paramKey := Itoa i in
      let args' :=
        match parameters !! paramKey with
        | Some paramValue => args ++ [VString paramValue]
        | None => args
        end in
      bind_loop n' (i + 1) parameters args'
  end.

Definition bind_parameters (parameters : gmap string string) : list value :=
  bind_loop (size parameters) 1 parameters [].

(** [rows.Scan(columnPointers...)]: [database/sql] refuses a destination
    list whose length is not the number of columns of the row; every value
    converts to an [interface{}] destination.  The scan overwrites
    [columnValues]. *)
Definition Scan (row columnValues : list value) : string + list value :=
  if decide (length row = length columnValues) then inr row
  else inl ("sql: expected " +:+ pretty (length row) +:+
            " destination arguments in Scan, not " +:+
            pretty (length columnValues)).

(** [for i, columnName := range columnNames { rowMap[columnName] =
    columnValues[i] }] from index [i] on. *)
Fixpoint fill_row (i : nat) (columnNames : list string)
    (columnValues : list value) (rowMap : gmap string value)
  : gmap string value :=
  match columnNames with
  | [] => rowMap
  | columnName :: rest =>
      fill_row (S i) rest columnValues
        (<[columnName := nth i columnValues VNil]> rowMap)
  end.

(** The loop [for rows.Next()]. *)
Fixpoint scan_rows (scans : list (string + list value))
    (columnNames : list string) (columnValues : list value)
    (resultRows : list (gmap string value))
  : string + list (gmap string value) :=
  match scans with
  | [] => inr resultRows
  | inl err :: _ => inl ("failed to scan row: " +:+ err)
  | inr row :: rest =>
      match Scan row columnValues with
      | inl err => inl ("failed to scan row: " +:+ err)
      | inr columnValues' =>
          let rowMap := fill_row 0 columnNames columnValues' ∅ in
          scan_rows rest columnNames columnValues' (resultRows ++ [rowMap])
      end
  end.

(** The text handed to the backend: the pagination clauses are appended as
    literal integers. *)
Definition paginate (sqlQuery : string) (limit offset : Z) : string :=
  let finalQuery := sqlQuery in
  let finalQuery :=
    if 0 <? limit then finalQuery +:+ " LIMIT " +:+ Itoa limit
    else finalQuery in
  if 0 <? offset then finalQuery +:+ " OFFSET " +:+ Itoa offset
  else finalQuery.

(** Go's result triple: a pointer to an [SQLResult], an [int64] and an
    [error]. *)
Definition ExecResult : Type := option SQLResult * Z * option string.

Definition failed (err : string) : ExecResult := (None, 0, Some err).

(** [ExecuteQuery]: the result triple and the queries issued to the
    backend, in order. *)
Definition ExecuteQuery (env : Env) (sqlQuery : string)
    (parameters : gmap string string) (limit offset : Z)
  : ExecResult * list (string * list value) :=
  if decide (sqlQuery = "") then (failed "sql_query cannot be empty", [])
  else
    match ValidateQuery sqlQuery with
    | Some err => (failed ("invalid query: " +:+ err), [])
    | None =>
        let args := bind_parameters parameters in
        let finalQuery := paginate sqlQuery limit offset in
        let issued := [(finalQuery, args)] in
        match backend env finalQuery args with
        | inl err => (failed ("failed to execute query: " +:+ err), issued)
        | inr rows =>
            match cursor_columns rows with
            | inl err =>
                (failed ("failed to get column names: " +:+ err), issued)
            | inr columnNames =>
                let columnValues := replicate (length columnNames) VNil in
                match scan_rows (cursor_scans rows) columnNames
                        columnValues [] with
                | inl err => (failed err, issued)
                | inr resultRows =>
                    match cursor_err rows with
                    | Some err =>
                        (failed ("error iterating rows: " +:+ err), issued)
                    | None =>
                        let executionTime := elapsed_ms env in
                        let result :=
                          {| Columns := columnNames; Rows := resultRows |} in
                        ((Some result, executionTime, None), issued)
                    end
                end
            end
        end
    end.

End Client.
End clickhouse.

(** ** Package [grpc]: the handler *)
Module grpc.
Import clickhouse.

(** [pb.GetRetailersRequest]; [Limit] and [Offset] are [int32] fields. *)
Record GetRetailersRequest := {
  SqlQuery : string;
  Parameters : gmap string string;
  Limit : Z;
  Offset : Z
}.

(** [timestamppb.Timestamp] *)
Record Timestamp := { Seconds : Z; Nanos : Z }.

(** [timestamppb.New]: the instant of [t]; the location is dropped. *)
Definition timestamppb_New (t : Time) : Timestamp :=
  {| Seconds := t_unix t; Nanos := t_nanosecond t |}.

(** [pb.Retailer]: three optional fields. *)
Record Retailer := {
  Id : option string;
  Name : option string;
  CreatedAt : option Timestamp
}.

(** [pb.GetRetailersResponse]; a field left out of the Go literal holds its
    zero value. *)
Record GetRetailersResponse := {
  Retailers : list Retailer;
  Count : Z;
  ExecutionTimeMs : Z;
  Error : string
}.

(** The [codes] the handler uses, and [status.Error(code, msg)]. *)
Inductive Code := InvalidArgument | Internal.

Record Status := { status_code : Code; status_message : string }.

(** How a call of the handler ends: with a status error and a nil response,
    with a response and a nil error, or in a run-time panic. *)
Inductive Outcome :=
| StatusError (st : Status)
| Response (resp : GetRetailersResponse)
| Panic.

(** What a call of the handler does beside returning: calls of the Executor
    and queries sent to the backend. *)
Inductive Event :=
| EvExecuteQuery (sqlQuery : string) (parameters : gmap string string)
    (limit offset : Z)
| EvQueryContext (query : string) (args : list value).

Section Handler.
Context `{UnicodeTables}.

(** The order in which the Go runtime visits the entries of a map in a
    [range] loop.  The language leaves it unspecified; it is an input of the
    model, and [range_order] says what every runtime guarantees: each entry
    is visited once. *)
Definition RangeOrder := gmap string value → list (string * value).

Definition range_order (range : RangeOrder) : Prop :=
  ∀ m, range m ≡ₚ map_to_list m.

(** The body of [for columnName, value := range row]. *)
Definition map_column (retailer : Retailer) (entry : string * value)
  : Retailer :=
  let '(columnName, value) := entry in
  match value with
  | VNil => retailer
  | _ =>
      let columnNameLower := ToLower columnName in
      if decide (columnNameLower = "id") then
        match value with
        | VString strValue =>
            {| Id := Some strValue; Name := Name retailer;
               CreatedAt := CreatedAt retailer |}
        | _ => retailer
        end
      else if decide (columnNameLower = "name") then
        match value with
        | VString strValue =>
            {| Id := Id retailer; Name := Some strValue;
               CreatedAt := CreatedAt retailer |}
        | _ => retailer
        end
      else if decide (columnNameLower = "created_at") then
        match value with
        | VTime timeValue =>
            {| Id := Id retailer; Name := Name retailer;
               CreatedAt := Some (timestamppb_New timeValue) |}
        | _ => retailer
        end
      else retailer
  end.

(** [retailer := &pb.Retailer{}] *)
Definition empty_retailer : Retailer :=
  {| Id := None; Name := None; CreatedAt := None |}.

Definition map_row (range : RangeOrder) (row : gmap string value) : Retailer :=
  foldl map_column empty_retailer (range row).

(** [convertToRetailers] *)
Definition convertToRetailers (range : RangeOrder) (result : SQLResult)
  : list Retailer :=
  foldl (λ retailers row, retailers ++ [map_row range row]) [] (Rows result).

(** [GetRetailers]: the outcome of the call and its events. *)
Definition GetRetailers (env : Env) (range : RangeOrder)
    (req : GetRetailersRequest)
  : Outcome * list Event :=
  if decide (SqlQuery req = "") then
    (StatusError {| status_code := InvalidArgument;
            status_message := "sql_query cannot be empty" |}, [])
  else if Limit req <? 0 then
    (StatusError {| status_code := InvalidArgument;
            status_message := "limit cannot be negative" |}, [])
  else if Offset req <? 0 then
    (StatusError {| status_code := InvalidArgument;
            status_message := "offset cannot be negative" |}, [])
  else
    (* req.Limit = 10000 *)
    let req :=
      if 10000 <? Limit req
      then {| SqlQuery := SqlQuery req; Parameters := Parameters req;
              Limit := 10000; Offset := Offset req |}
      else req in
    let '((result, executionTime, err), issued) :=
      ExecuteQuery env (SqlQuery req) (Parameters req) (Limit req)
        (Offset req) in
    let events :=
      EvExecuteQuery (SqlQuery req) (Parameters req) (Limit req) (Offset req)
      :: map (λ q, EvQueryContext q.1 q.2) issued in
    match err, result with
    | Some err, _ =>
        (Response {| Retailers := []; Count := 0; ExecutionTimeMs := 0;
                Error := err |}, events)
    | None, Some result =>
        let retailers := convertToRetailers range result in
        (* a nil slice and an empty slice are both the empty list *)
        let retailers :=
          match retailers with [] => [] | _ => retailers end in
        (Response {| Retailers := retailers;
                Count := Z.of_nat (length retailers);
                ExecutionTimeMs := executionTime;
                Error := "" |}, events)
    | None, None =>
        (* [result.Rows] on a nil result: a nil pointer dereference.
           [ExecuteQuery] never returns a nil result with a nil error
           (lemma [ExecuteQuery_outcome]). *)
        (Panic, events)
    end.

End Handler.
End grpc.

(** ** Vocabulary of the specification *)
Import clickhouse grpc.

(** The text the Validator inspects: lower-cased, outer white space
    trimmed. *)
Definition normalize `{UnicodeTables} (query : string) : string :=
  ToLower (TrimSpace query).

(** [w] occurs in [s], between [a] and [b]. *)
Definition occurs_between (a w b s : string) : Prop := s = a +:+ w +:+ b.

Definition substring_of (w s : string) : Prop :=
  ∃ a b, occurs_between a w b s.

(** What precedes an occurrence is nothing or ends with a space; what
    follows it is nothing or starts with a space. *)
Definition left_boundary (a : string) : Prop := a = "" ∨ ∃ a', a = a' +:+ " ".

Definition right_boundary (b : string) : Prop := b = "" ∨ ∃ b', b = " " +:+ b'.

(** [w] occurs in [s] as a whole word or phrase: delimited on each side by
    a space or by the end of the text. *)
Definition whole_word (w s : string) : Prop :=
  ∃ a b, occurs_between a w b s ∧ left_boundary a ∧ right_boundary b.

(** Every occurrence of [w] in [s] is embedded in longer text: on one side
    at least it touches a character that is not a space. *)
Definition embedded_only (w s : string) : Prop :=
  ∀ a b, occurs_between a w b s → ¬ (left_boundary a ∧ right_boundary b).

(** The blacklist as the specification lists it: ten single words, then
    seven phrases. *)
Definition blacklist_words : list string :=
  [ "drop"; "delete"; "insert"; "update"; "alter";
    "truncate"; "grant"; "revoke"; "exec"; "execute" ].

Definition blacklist_phrases : list string :=
  [ "drop table"; "drop database"; "create table"; "create database";
    "alter table"; "truncate table"; "insert into" ].

Definition blacklist : list string := blacklist_words ++ blacklist_phrases.

(** [s] begins with [p]. *)
Definition begins_with (p s : string) : Prop := ∃ rest, s = p +:+ rest.

(** [k] is the first element of [l] that satisfies [P]. *)
Definition first_match (P : string → Prop) (l : list string) (k : string)
  : Prop :=
  ∃ before after, l = before ++ k :: after ∧ P k ∧ Forall (λ k', ¬ P k') before.

Fixpoint last_byte (s : string) : option ascii :=
  match s with
  | EmptyString => None
  | String c EmptyString => Some c
  | String _ s' => last_byte s'
  end.

(** The arguments the specification asks for: the values of the keys ["1"]
    to ["n"] that are present, by increasing index. *)
Definition present_values (parameters : gmap string string) (n : nat)
  : list value :=
  omap (λ i : nat, VString <$> parameters !! Itoa (Z.of_nat i)) (seq 1 n).

(** No two columns of a row have the same lower-cased name. *)
Definition unambiguous `{UnicodeTables} (row : gmap string value) : Prop :=
  ∀ k1 k2, is_Some (row !! k1) → is_Some (row !! k2) →
    ToLower k1 = ToLower k2 → k1 = k2.

(** The row the specification asks for, given the columns and the values of
    a backend row: column [c] is bound to the value at the last position
    that carries the name [c]. *)
Definition binds (columnNames : list string) (values : list value)
    (row : gmap string value) : Prop :=
  (∀ j c, columnNames !! j = Some c →
     (∀ j', (j < j')%nat → columnNames !! j' ≠ Some c) →
     row !! c = values !! j) ∧
  (∀ c, c ∉ columnNames → row !! c = None).

(** What an entry of a row contributes to the string field, or to the
    timestamp field, of the given lower-case name. *)
Definition string_column `{UnicodeTables} (name : string)
    (entry : string * value) : option string :=
  match entry.2 with
  | VString s => if decide (ToLower entry.1 = name) then Some s else None
  | _ => None
  end.

Definition time_column `{UnicodeTables} (name : string)
    (entry : string * value) : option Timestamp :=
  match entry.2 with
  | VTime t =>
      if decide (ToLower entry.1 = name) then Some (timestamppb_New t)
      else None
  | _ => None
  end.

(** The record the specification asks for: a field is set exactly when a
    column of the row has the field's name, up to case, and holds a value of
    the field's type; it then holds that value. *)
Definition maps_to `{UnicodeTables} (row : gmap string value) (r : Retailer)
  : Prop :=
  (∀ s, Id r = Some s ↔
        ∃ k, ToLower k = "id" ∧ row !! k = Some (VString s)) ∧
  (∀ s, Name r = Some s ↔
        ∃ k, ToLower k = "name" ∧ row !! k = Some (VString s)) ∧
  (∀ ts, CreatedAt r = Some ts ↔
         ∃ k t, ToLower k = "created_at" ∧ row !! k = Some (VTime t) ∧
                ts = timestamppb_New t).

(** The row of the specification's round trip, with one more column. *)
Definition sample_row (t : Time) : gmap string value :=
  {[ "ID" := VString "r1"; "NAME" := VString "Acme";
     "CREATED_AT" := VTime t; "extra_col" := VInt 7 ]}.

Definition sample_time : Time :=
  {| t_unix := 1700000000; t_nanosecond := 5; t_location := "UTC" |}.

Definition sample_result : SQLResult :=
  {| Columns := ["ID"; "NAME"; "CREATED_AT"; "extra_col"];
     Rows := [sample_row sample_time] |}.

(** The limit the facade hands on. *)
Definition clamp (limit : Z) : Z := if 10000 <? limit then 10000 else limit.

(** Backends for worked examples: one answers every query with the columns
    [id] and [name] and a single row, the other refuses every query. *)
Definition sample_cursor : Cursor :=
  {| cursor_columns := inr ["id"; "name"];
     cursor_scans := [inr [VString "r1"; VString "Acme"]];
     cursor_err := None |}.

Definition sample_env : Env :=
  {| backend := λ _ _, inr sample_cursor; elapsed_ms := 3 |}.

Definition refusing_env : Env :=
  {| backend := λ _ _, inl "connection refused"; elapsed_ms := 3 |}.

(** ** More of the Go runtime *)

(** [strings.Index]: the byte index of the first occurrence of [substr], or
    [-1]. *)
Fixpoint Index (s substr : string) : Z :=
  if HasPrefix s substr then 0
  else
    match s with
    | EmptyString => -1
    | String _ s' =>
        let i := Index s' substr in
        if i <? 0 then -1 else i + 1
    end.

Fixpoint take_bytes (n : nat) (s : string) : string :=
  match n, s with
  | S n', String c s' => String c (take_bytes n' s')
  | _, _ => EmptyString
  end.

Fixpoint drop_bytes (n : nat) (s : string) : string :=
  match n, s with
  | S n', String _ s' => drop_bytes n' s'
  | _, _ => s
  end.

(** The slice expression [s[lo:hi]]; [None] is the run-time panic for
    indices out of range. *)
Definition slice (s : string) (lo hi : Z) : option string :=
  if (0 <=? lo) && (lo <=? hi) && (hi <=? Z.of_nat (String.length s))
  then Some (take_bytes (Z.to_nat (hi - lo)) (drop_bytes (Z.to_nat lo) s))
  else None.

(** ** Package [clickhouse]: configuration, connections, column detection *)
Module connection.

(** [Config] *)
Record Config := {
  Host : string;
  Port : Z;
  Database : string;
  Username : string;
  Password : string;
  UseTLS : bool;
  Debug : bool
}.

(** [Config.Validate]: [None] is the [nil] error. *)
Definition Validate (c : Config) : option string :=
  if decide (Host c = "") then Some "host cannot be empty"
  else if (Port c <=? 0) || (65535 <? Port c)
  then Some "port must be between 1 and 65535"
  else if decide (Database c = "") then Some "database cannot be empty"
  else if decide (Username c = "") then Some "username cannot be empty"
  else None.

(** [Config.ConnectionString] *)
Definition ConnectionString (c : Config) : string :=
  Username c +:+ "@" +:+ Host c +:+ ":" +:+ Itoa (Port c) +:+ "/" +:+
  Database c.

(** The two connections of a [Client]: the [database/sql] pool and the
    native connection. *)
Inductive Handle := SqlDB | NativeConn.

(** What the client does to its connections. *)
Inductive ConnEvent :=
| EvOpen (h : Handle)
| EvOpenFailed (h : Handle)
| EvPing (h : Handle)
| EvClose (h : Handle).

(** What the driver answers: the outcome of [db.PingContext], of
    [clickhouse.Open], of [conn.Ping], of [db.Close] and of [conn.Close]
    ([None] is the [nil] error).  [clickhouse.OpenDB] returns no error. *)
Record Driver := {
  ping_db : option string;
  open_native : option string;
  ping_native : option string;
  close_db : option string;
  close_native : option string
}.

(** [Client]: [db] and [conn] say whether the handle is non-nil. *)
Record Client := { conn : bool; db : bool; config : Config }.

(** [NewClient]: Go's result pair and the connection events, in order. *)
Definition NewClient (d : Driver) (cfg : Config)
  : (option Client * option string) * list ConnEvent :=
  match Validate cfg with
  | Some err => ((None, Some ("invalid config: " +:+ err)), [])
  | None =>
      match ping_db d with
      | Some err =>
          ((None, Some ("failed to ping ClickHouse database: " +:+ err)),
           [EvOpen SqlDB; EvPing SqlDB; EvClose SqlDB])
      | None =>
          match open_native d with
          | Some err =>
              ((None,
                Some ("failed to open ClickHouse native connection: " +:+
                      err)),
               [EvOpen SqlDB; EvPing SqlDB; EvOpenFailed NativeConn;
                EvClose SqlDB])
          | None =>
              match ping_native d with
              | Some err =>
                  ((None,
                    Some ("failed to ping ClickHouse native connection: " +:+
                          err)),
                   [EvOpen SqlDB; EvPing SqlDB; EvOpen NativeConn;
                    EvPing NativeConn; EvClose SqlDB; EvClose NativeConn])
              | None =>
                  ((Some {| conn := true; db := true; config := cfg |}, None),
                   [EvOpen SqlDB; EvPing SqlDB; EvOpen NativeConn;
                    EvPing NativeConn])
              end
          end
      end
  end.

(** [Client.Close]: the returned error and the connection events. *)
Definition Close (d : Driver) (c : Client) : option string * list ConnEvent :=
  let '(dbErr, events) :=
    if db c then (close_db d, [EvClose SqlDB]) else (None, []) in
  let '(connErr, events) :=
    if conn c then (close_native d, events ++ [EvClose NativeConn])
    else (None, events) in
  match dbErr with
  | Some err => (Some ("failed to close database connection: " +:+ err), events)
  | None =>
      match connErr with
      | Some err =>
          (Some ("failed to close native connection: " +:+ err), events)
      | None => (None, events)
      end
  end.

(** [Client.TestConnection]: one query, [SELECT 1], sent without
    validation; the returned error and the queries issued. *)
Definition TestConnection (env : Env)
  : option string * list (string * list value) :=
  let issued := [("SELECT 1", [])] in
  match backend env "SELECT 1" [] with
  | inl err => (Some err, issued)
  | inr _ => (None, issued)
  end.

(** How a call of [DetectColumns] ends: with the map of detected columns,
    with an error, or in a run-time panic of the slice expression. *)
Inductive Detection :=
| Detected (columns : gmap string bool)
| DetectError (err : string)
| DetectPanic.

(** [DetectColumns].  The indices are found in the lower-cased text and
    applied to the text as given.  The loop that sets every entry of
    [columns] to [true] visits each key once, in any order. *)
Definition DetectColumns `{UnicodeTables} (query : string) : Detection :=
  let queryLower := ToLower query in
  let selectIndex := Index queryLower "select" in
  let fromIndex := Index queryLower "from" in
  if (selectIndex =? -1) || (fromIndex =? -1) || (fromIndex <=? selectIndex)
  then DetectError "invalid SELECT query format"
  else
    match slice query (selectIndex + 6) fromIndex with
    | None => DetectPanic
    | Some selectPart =>
        let selectPart := TrimSpace selectPart in
        let columns : gmap string bool :=
          {[ "id" := false; "name" := false; "created_at" := false ]} in
        if Contains selectPart "*" then Detected ((λ _, true) <$> columns)
        else
          let selectLower := ToLower selectPart in
          let columns :=
            if Contains selectLower "id" then <["id" := true]> columns
            else columns in
          let columns :=
            if Contains selectLower "name" then <["name" := true]> columns
            else columns in
          let columns :=
            if Contains selectLower "created_at"
            then <["created_at" := true]> columns
            else columns in
          Detected columns
    end.

End connection.

(** ** Package [grpc]: health check, streaming, logging helper *)
Module handler.
Import connection.

(** [pb.HealthCheckResponse] *)
Record HealthCheckResponse := {
  Healthy : bool;
  Version : string;
  UptimeSeconds : Z;
  HealthError : string
}.

(** [HealthCheck]: the response (the returned error is always [nil]) and the
    queries issued.  [uptime] is [int64(time.Since(h.startTime).Seconds())]
    as the clock gives it. *)
Definition HealthCheck (env : Env) (uptime : Z)
  : HealthCheckResponse * list (string * list value) :=
  let '(err, issued) := TestConnection env in
  match err with
  | Some err =>
      ({| Healthy := false; Version := "0.1.0"; UptimeSeconds := uptime;
          HealthError := err |}, issued)
  | None =>
      ({| Healthy := true; Version := "0.1.0"; UptimeSeconds := uptime;
          HealthError := "" |}, issued)
  end.

(** [pb.RetailerStreamResponse] *)
Record RetailerStreamResponse := {
  StreamRetailer : option Retailer;
  IsLast : bool;
  StreamExecutionTimeMs : Z
}.

(** How a call of [GetRetailersStream] ends: with a [nil] error, with a
    status error, with the error of a failed [Send], or in a panic. *)
Inductive StreamOutcome :=
| StreamDone
| StreamStatus (st : Status)
| StreamSendError (err : string)
| StreamPanic.

(** The outcome of the [i]-th call of [stream.Send], counted from 0. *)
Definition SendOracle := nat → option string.

(** The loop [for _, retailer := range resp.Retailers]: the error of the
    first failed [Send], if any, and the messages handed to [Send]. *)
Fixpoint send_retailers (send : SendOracle) (i : nat)
    (retailers : list Retailer)
  : option string * list RetailerStreamResponse :=
  match retailers with
  | [] => (None, [])
  | retailer :: rest =>
      let response :=
        {| StreamRetailer := Some retailer; IsLast := false;
           StreamExecutionTimeMs := 0 |} in
      match send i with
      | Some err => (Some err, [response])
      | None =>
          let '(err, sent) := send_retailers send (S i) rest in
          (err, response :: sent)
      end
  end.

(** [GetRetailersStream]: the outcome, the events of the inner call of
    [GetRetailers], and the messages handed to [stream.Send], in order. *)
Definition GetRetailersStream `{UnicodeTables} (env : Env)
    (range : RangeOrder) (send : SendOracle) (req : GetRetailersRequest)
  : StreamOutcome * list Event * list RetailerStreamResponse :=
  let '(outcome, events) := GetRetailers env range req in
  match outcome with
  | StatusError st => (StreamStatus st, events, [])
  | Panic => (StreamPanic, events, [])
  | Response resp =>
      if decide (Error resp = "") then
        match send_retailers send 0 (Retailers resp) with
        | (Some err, sent) => (StreamSendError err, events, sent)
        | (None, sent) =>
            let endResponse :=
              {| StreamRetailer := None; IsLast := true;
                 StreamExecutionTimeMs := ExecutionTimeMs resp |} in
            match send (length (Retailers resp)) with
            | Some err => (StreamSendError err, events, sent ++ [endResponse])
            | None => (StreamDone, events, sent ++ [endResponse])
            end
        end
      else
        (StreamStatus {| status_code := Internal;
                         status_message := Error resp |}, events, [])
  end.

(** [truncateString]; [None] is the run-time panic of [s[:maxLen]] for a
    negative [maxLen]. *)
Definition truncateString (s : string) (maxLen : Z) : option string :=
  if Z.of_nat (String.length s) <=? maxLen then Some s
  else
    match slice s 0 maxLen with
    | Some head => Some (head +:+ "...")
    | None => None
    end.

End handler.
Import connection handler.

(** ** More vocabulary *)

(** The text has no space byte. *)
Definition no_space (s : string) : Prop := ¬ substring_of " " s.

(** The messages of a complete stream for a response: one per record, then
    the terminal marker with the execution time. *)
Definition stream_messages (resp : GetRetailersResponse)
  : list RetailerStreamResponse :=
  map (λ retailer, {| StreamRetailer := Some retailer; IsLast := false;
                      StreamExecutionTimeMs := 0 |}) (Retailers resp) ++
  [ {| StreamRetailer := None; IsLast := true;
       StreamExecutionTimeMs := ExecutionTimeMs resp |} ].

(** How often a connection was opened, and closed, in a run. *)
Definition is_open_of (h : Handle) (e : ConnEvent) : bool :=
  match e, h with
  | EvOpen SqlDB, SqlDB | EvOpen NativeConn, NativeConn => true
  | _, _ => false
  end.

Definition is_close_of (h : Handle) (e : ConnEvent) : bool :=
  match e, h with
  | EvClose SqlDB, SqlDB | EvClose NativeConn, NativeConn => true
  | _, _ => false
  end.

Definition opened (h : Handle) (events : list ConnEvent) : nat :=
  length (List.filter (is_open_of h) events).

Definition closed (h : Handle) (events : list ConnEvent) : nat :=
  length (List.filter (is_close_of h) events).

(** What holds of the record of any row, colliding column names or not: a
    field that is set holds the value of some column of the field's name and
    type, and a field is set as soon as there is such a column. *)
Definition maps_within `{UnicodeTables} (row : gmap string value)
    (r : Retailer) : Prop :=
  (∀ s, Id r = Some s →
        ∃ k, ToLower k = "id" ∧ row !! k = Some (VString s)) ∧
  (∀ s, Name r = Some s →
        ∃ k, ToLower k = "name" ∧ row !! k = Some (VString s)) ∧
  (∀ ts, CreatedAt r = Some ts →
         ∃ k t, ToLower k = "created_at" ∧ row !! k = Some (VTime t) ∧
                ts = timestamppb_New t) ∧
  ((∃ k s, ToLower k = "id" ∧ row !! k = Some (VString s)) →
   is_Some (Id r)) ∧
  ((∃ k s, ToLower k = "name" ∧ row !! k = Some (VString s)) →
   is_Some (Name r)) ∧
  ((∃ k t, ToLower k = "created_at" ∧ row !! k = Some (VTime t)) →
   is_Some (CreatedAt r)).

(** A query whose words are separated by tabs and line feeds only. *)
Definition tabbed_query : string :=
  "select" +:+ String "009" ("1;" +:+ String "010" ("drop" +:+
    String "009" ("table" +:+ String "009" "retailers"))).

Definition sample_config : Config :=
  {| Host := "localhost"; Port := 9000; Database := "default";
     Username := "default"; Password := ""; UseTLS := false;
     Debug := false |}.

Definition healthy_driver : Driver :=
  {| ping_db := None; open_native := None; ping_native := None;
     close_db := None; close_native := None |}.

(** ** The load generator: statistics *)
Module benchmark.

(** [time.Duration] is an [int64] count of nanoseconds; [wrap64] is the
    wrap-around of its arithmetic. *)
Definition wrap64 (z : Z) : Z := (z + 2 ^ 63) mod 2 ^ 64 - 2 ^ 63.

(** The loop [for _, d := range durations { total += d }]. *)
Fixpoint sum_loop (total : Z) (durations : list Z) : Z :=
  match durations with
  | [] => total
  | d :: rest => sum_loop (wrap64 (total + d)) rest
  end.

(** [calculateAverage]; Go's division truncates toward zero. *)
Definition calculateAverage (durations : list Z) : Z :=
  match durations with
  | [] => 0
  | _ =>
      let total := sum_loop 0 durations in
      wrap64 (Z.quot total (Z.of_nat (length durations)))
  end.

(** The loop of [calculateMin]. *)
Fixpoint min_loop (min : Z) (durations : list Z) : Z :=
  match durations with
  | [] => min
  | d :: rest => min_loop (if d <? min then d else min) rest
  end.

(** [calculateMin] *)
Definition calculateMin (durations : list Z) : Z :=
  match durations with
  | [] => 0
  | d0 :: _ => min_loop d0 durations
  end.

(** The loop of [calculateMax]. *)
Fixpoint max_loop (max : Z) (durations : list Z) : Z :=
  match durations with
  | [] => max
  | d :: rest => max_loop (if max <? d then d else max) rest
  end.

(** [calculateMax] *)
Definition calculateMax (durations : list Z) : Z :=
  match durations with
  | [] => 0
  | d0 :: _ => max_loop d0 durations
  end.

End benchmark.
Import benchmark.

(** The sum of a list of durations, without wrap-around. *)
Definition total_of (durations : list Z) : Z := foldr Z.add 0 durations.

(** ** Go strings: lemmas *)

Lemma str_app_cons c s t : String c s +:+ t = String c (s +:+ t).
Proof. reflexivity. Qed.

Lemma str_app_nil_r s : s +:+ "" = s.
Proof. induction s as [|c s IH]; [done|]. by rewrite str_app_cons, IH. Qed.

Lemma str_app_assoc s t u : (s +:+ t) +:+ u = s +:+ t +:+ u.
Proof. induction s as [|c s IH]; [done|]. by rewrite !str_app_cons, IH. Qed.

Lemma str_app_nil_l s : "" +:+ s = s.
Proof. reflexivity. Qed.

(** Right-nested form of a concatenation. *)
Ltac str_norm :=
  repeat first
    [ rewrite str_app_assoc | rewrite str_app_cons | rewrite str_app_nil_l
    | rewrite str_app_nil_r ].

Ltac str_norm_in H :=
  repeat first
    [ rewrite str_app_assoc in H | rewrite str_app_cons in H | rewrite str_app_nil_l in H
    | rewrite str_app_nil_r in H ].

Lemma str_app_eq_nil s t : s +:+ t = "" → s = "" ∧ t = "".
Proof. destruct s; [done|]. by rewrite str_app_cons. Qed.

Lemma snoc_cases s : s = "" ∨ ∃ s' c, s = s' +:+ String c "".
Proof.
  induction s as [|c s IH]; [by left|right].
  destruct IH as [->|(s' & d & ->)].
  - by exists "", c.
  - by exists (String c s'), d.
Qed.

Lemma snoc_inj s t c d :
  s +:+ String c "" = t +:+ String d "" → s = t ∧ c = d.
Proof.
  revert t; induction s as [|a s IH]; intros [|b t]; rewrite ?str_app_cons.
  - intros [= ->]; done.
  - intros [= -> Ht]. symmetry in Ht. by apply str_app_eq_nil in Ht as [_ ?].
  - intros [= -> Hs]. by apply str_app_eq_nil in Hs as [_ ?].
  - intros [= -> Hs]. apply IH in Hs as [-> ->]; done.
Qed.

Lemma last_byte_snoc s c : last_byte (s +:+ String c "") = Some c.
Proof.
  induction s as [|a s IH]; [done|].
  rewrite str_app_cons. simpl. rewrite IH.
  destruct s; [done|]. by rewrite str_app_cons.
Qed.

Lemma HasPrefix_true s p : HasPrefix s p = true ↔ ∃ t, s = p +:+ t.
Proof.
  revert s; induction p as [|c p IH]; intros s; simpl.
  - split; [by exists s|done].
  - destruct s as [|d s].
    + split; [done|]. intros [t Ht]. by rewrite str_app_cons in Ht.
    + rewrite andb_true_iff, Ascii.eqb_eq, IH. split.
      * intros [-> [t ->]]. by exists t.
      * intros [t Ht]. rewrite str_app_cons in Ht. injection Ht as -> ->. eauto.
Qed.

Lemma Contains_true s w : Contains s w = true ↔ substring_of w s.
Proof.
  unfold substring_of, occurs_between.
  induction s as [|c s IH]; simpl; rewrite orb_true_iff, HasPrefix_true.
  - split.
    + intros [[t Ht]|?]; [|done]. by exists "", t.
    + intros (a & b & Hab). left. symmetry in Hab.
      apply str_app_eq_nil in Hab as [-> Hw]. exists b. by rewrite Hw.
  - rewrite IH. split.
    + intros [[t Ht]|(a & b & ->)]; [by exists "", t|].
      by exists (String c a), b.
    + intros ([|d a] & b & Hab).
      * left. by exists b.
      * right. rewrite str_app_cons in Hab. injection Hab as -> ->. eauto.
Qed.

Lemma Contains_false s w : Contains s w = false ↔ ¬ substring_of w s.
Proof. rewrite <-Contains_true. by destruct (Contains s w). Qed.

(** Dropping the last byte of both sides of an equation. *)
Lemma snoc_eq_inv s t u c d :
  s +:+ String c "" = t +:+ u +:+ String d "" → s = t +:+ u ∧ c = d.
Proof. rewrite <-str_app_assoc. apply snoc_inj. Qed.

Lemma substring_padded w s :
  substring_of w s → substring_of w (" " +:+ s +:+ " ").
Proof.
  intros (a & b & ->). exists (" " +:+ a), (b +:+ " ").
  unfold occurs_between. by str_norm.
Qed.

(** Searching [" w "] in the padded text finds exactly the occurrences of [w]
    as a whole word. *)
Lemma padded_word w s :
  substring_of (" " +:+ w +:+ " ") (" " +:+ s +:+ " ") ↔ whole_word w s.
Proof.
  unfold whole_word, substring_of, occurs_between, left_boundary,
    right_boundary. split.
  - intros (x & y & Hxy). str_norm_in Hxy.
    destruct x as [|c x]; str_norm_in Hxy.
    + injection Hxy as Hxy. exists "". destruct (snoc_cases y) as [->|(y' & d & ->)].
      * apply (snoc_inj s w) in Hxy as [-> _]. exists "".
        split; [by str_norm|]. split; by left.
      * apply (snoc_eq_inv s w (String " " y')) in Hxy as [-> _].
        exists (" " +:+ y'). split; [by str_norm|].
        split; [by left|right; by exists y'].
    + injection Hxy as <- Hxy. exists (x +:+ " ").
      destruct (snoc_cases y) as [->|(y' & d & ->)].
      * apply (snoc_eq_inv s x (String " " w)) in Hxy as [-> _].
        exists "". split; [by str_norm|].
        split; [right; by exists x|by left].
      * rewrite <-(str_app_cons " " w), <-(str_app_cons " " y') in Hxy.
        rewrite <-!str_app_assoc in Hxy. apply snoc_inj in Hxy as [-> _].
        exists (" " +:+ y'). split; [by str_norm|].
        split; right; [by exists x|by exists y'].
  - intros (a & b & -> & [->|[a' ->]] & [->|[b' ->]]).
    + exists "", "". by str_norm.
    + exists "", (b' +:+ " "). by str_norm.
    + exists (" " +:+ a'), "". by str_norm.
    + exists (" " +:+ a'), (b' +:+ " "). by str_norm.
Qed.

(** A phrase that neither starts nor ends with a space is found in the
    padded text exactly where it occurs in the text: the padding plays no
    part. *)
Lemma padded_phrase p s :
  p ≠ "" → HasPrefix p " " = false → last_byte p ≠ Some " "%char →
  substring_of p (" " +:+ s +:+ " ") → substring_of p s.
Proof.
  unfold substring_of, occurs_between.
  intros Hne Hfirst Hlast (x & y & Hxy). str_norm_in Hxy.
  destruct x as [|c x]; str_norm_in Hxy.
  - destruct p as [|c p]; [done|]. str_norm_in Hxy.
    injection Hxy as <- _. simpl in Hfirst. by destruct p.
  - injection Hxy as <- Hxy.
    destruct (snoc_cases y) as [->|(y' & d & ->)].
    + destruct (snoc_cases p) as [->|(p' & e & ->)]; [done|].
      str_norm_in Hxy. apply snoc_eq_inv in Hxy as [_ <-].
      by rewrite last_byte_snoc in Hlast.
    + exists x, y'. rewrite <-!str_app_assoc in Hxy.
      apply snoc_inj in Hxy as [-> _]. by str_norm.
Qed.

(** ** The Validator *)
Section ValidatorFacts.
Context `{UnicodeTables}.

Lemma embedded_only_iff w s : embedded_only w s ↔ ¬ whole_word w s.
Proof.
  unfold embedded_only, whole_word. split.
  - intros He (a & b & Hab & Hl & Hr). by apply (He a b).
  - intros Hn a b Hab Hlr. apply Hn. by exists a, b.
Qed.

Lemma begins_with_iff p s : begins_with p s ↔ HasPrefix s p = true.
Proof. by rewrite HasPrefix_true. Qed.

(** The scan stops at the first keyword found in the padded text. *)
Lemma scan_keywords_first t kws :
  (scan_keywords t kws = None ∧ Forall (λ k, ¬ substring_of k t) kws) ∨
  (∃ k, first_match (λ k, substring_of k t) kws k ∧
        scan_keywords t kws =
          Some ("query contains forbidden keyword: " +:+ TrimSpace k)).
Proof.
  induction kws as [|k kws IH]; simpl.
  - left. by split.
  - destruct (Contains t k) eqn:Hk.
    + right. exists k. split; [|done].
      exists [], kws. split; [done|]. split; [by apply Contains_true|done].
    + apply Contains_false in Hk.
      destruct IH as [[-> Hall]|(k' & (pre & post & -> & Hk' & Hpre) & ->)].
      * left. split; [done|]. by constructor.
      * right. exists k'. split; [|done].
        exists (k :: pre), post. split; [done|]. split; [done|].
        by constructor.
Qed.

Lemma ValidateQuery_select q :
  begins_with "select" (normalize q) →
  ValidateQuery q =
    scan_keywords (" " +:+ normalize q +:+ " ") dangerousKeywords.
Proof.
  intros Hs%begins_with_iff. unfold ValidateQuery. fold (normalize q).
  by rewrite Hs.
Qed.

Lemma ValidateQuery_not_select q :
  ¬ begins_with "select" (normalize q) →
  ValidateQuery q = Some "only SELECT queries are allowed".
Proof.
  rewrite begins_with_iff. intros Hs. unfold ValidateQuery.
  fold (normalize q). by destruct (HasPrefix (normalize q) "select").
Qed.

(** Each entry of the code's list is a word of the specification's list
    between two spaces, or one of its phrases as it is. *)
Lemma dangerousKeywords_blacklist :
  dangerousKeywords =
    map (λ w, " " +:+ w +:+ " ") blacklist_words ++ blacklist_phrases.
Proof. reflexivity. Qed.

(** The name a rejection reports for an entry of the code's list is the
    word or phrase of the specification's list at the same position. *)
Lemma dangerousKeywords_names : map TrimSpace dangerousKeywords = blacklist.
Proof. reflexivity. Qed.

Lemma blacklist_phrase_shape p :
  p ∈ blacklist_phrases →
  p ≠ "" ∧ HasPrefix p " " = false ∧ last_byte p ≠ Some " "%char.
Proof.
  unfold blacklist_phrases. rewrite !elem_of_cons, elem_of_nil.
  intros Hp. by repeat destruct Hp as [->|Hp].
Qed.

(** A keyword of the code's list found in the padded text is a word of the
    blacklist occurring as a whole word, or a phrase of the blacklist
    occurring anywhere. *)
Lemma dangerous_match k s :
  k ∈ dangerousKeywords → substring_of k (" " +:+ s +:+ " ") →
  (∃ w, w ∈ blacklist_words ∧ k = " " +:+ w +:+ " " ∧ whole_word w s) ∨
  (k ∈ blacklist_phrases ∧ substring_of k s).
Proof.
  rewrite dangerousKeywords_blacklist, elem_of_app, list_elem_of_fmap.
  intros [(w & -> & Hw)|Hp] Hk.
  - left. exists w. by rewrite <-padded_word.
  - right. split; [done|].
    destruct (blacklist_phrase_shape k Hp) as (? & ? & ?).
    by apply padded_phrase.
Qed.

(** A blacklisted word or phrase occurring as a whole word is found by the
    search for its entry in the code's list. *)
Lemma whole_word_match w s :
  w ∈ blacklist → whole_word w s →
  ∃ k, k ∈ dangerousKeywords ∧ substring_of k (" " +:+ s +:+ " ").
Proof.
  unfold blacklist. rewrite elem_of_app. intros [Hw|Hp] Hocc.
  - exists (" " +:+ w +:+ " "). split; [|by apply padded_word].
    rewrite dangerousKeywords_blacklist, elem_of_app, list_elem_of_fmap.
    left. by exists w.
  - exists w. split.
    + rewrite dangerousKeywords_blacklist, elem_of_app. by right.
    + apply substring_padded. destruct Hocc as (a & b & Hab & _).
      by exists a, b.
Qed.

Lemma first_match_exists (P : string → Prop) l k :
  first_match P l k → k ∈ l ∧ P k.
Proof.
  intros (pre & post & -> & Hk & _). split; [|done].
  rewrite elem_of_app, elem_of_cons. auto.
Qed.

End ValidatorFacts.

(** Deciding the occurrence predicates on a given text by running the
    search. *)
Lemma embedded_only_check w s :
  Contains (" " +:+ s +:+ " ") (" " +:+ w +:+ " ") = false →
  embedded_only w s.
Proof.
  rewrite Contains_false, padded_word. by rewrite embedded_only_iff.
Qed.

Lemma whole_word_check w s :
  Contains (" " +:+ s +:+ " ") (" " +:+ w +:+ " ") = true → whole_word w s.
Proof. by rewrite Contains_true, padded_word. Qed.

Lemma begins_with_check p s : HasPrefix s p = true → begins_with p s.
Proof. by rewrite begins_with_iff. Qed.

Lemma not_begins_with_check p s : HasPrefix s p = false → ¬ begins_with p s.
Proof. rewrite begins_with_iff. by intros ->. Qed.

(** Case analysis on membership in a list given by its elements. *)
Ltac each_element H :=
  rewrite ?elem_of_cons, elem_of_nil in H;
  repeat (destruct H as [->|H]); [..|done].

(** *** Claim C4 *)

(** C4, as stated, fails: in the query below every blacklisted word or
    phrase occurs only embedded in longer text (never delimited by spaces
    on both sides), the text starts with [select], and yet the Validator
    rejects it, because the phrase [drop table] is searched without
    delimiters and is found inside [backdrop tablet]. *)
Lemma C4_embedded_phrase_rejected :
  let q := "select backdrop tablet from t" in
  begins_with "select" (@normalize ascii_tables q) ∧
  (∀ k, k ∈ blacklist → embedded_only k (@normalize ascii_tables q)) ∧
  @ValidateQuery ascii_tables q =
    Some "query contains forbidden keyword: drop table".
Proof.
  split; [by apply begins_with_check|]. split; [|done].
  intros k Hk. unfold blacklist, blacklist_words, blacklist_phrases in Hk.
  simpl in Hk. each_element Hk; by apply embedded_only_check.
Qed.

(** C4, amended: a query whose normalized text starts with [select], in
    which each of the ten blacklisted words occurs only embedded in longer
    text (never delimited on both sides by a space or an end of the text)
    and in which none of the seven blacklisted phrases occurs at all, is
    accepted by the Validator.  The padding protects the single words
    only. *)
Theorem C4_embedded_words_accepted `{UnicodeTables} (q : string) :
  begins_with "select" (normalize q) →
  (∀ w, w ∈ blacklist_words → embedded_only w (normalize q)) →
  (∀ p, p ∈ blacklist_phrases → ¬ substring_of p (normalize q)) →
  ValidateQuery q = None.
Proof.
  intros Hsel Hwords Hphrases. rewrite ValidateQuery_select by done.
  destruct (scan_keywords_first (" " +:+ normalize q +:+ " ")
              dangerousKeywords) as [[-> _]|(k & Hfirst & _)]; [done|].
  apply first_match_exists in Hfirst as [Hk Hocc].
  destruct (dangerous_match k _ Hk Hocc) as [(w & Hw & _ & Hww)|[Hp Hsub]].
  - by apply Hwords, embedded_only_iff in Hw.
  - by apply Hphrases in Hp.
Qed.

Lemma C4_embedded_words_accepted_witness :
  let q := "SELECT backdrop FROM updates" in
  (begins_with "select" (@normalize ascii_tables q) ∧
   (∀ w, w ∈ blacklist_words → embedded_only w (@normalize ascii_tables q)) ∧
   (∀ p, p ∈ blacklist_phrases →
      ¬ substring_of p (@normalize ascii_tables q))) ∧
  @ValidateQuery ascii_tables q = None.
Proof.
  assert (Hsel : begins_with "select"
                   (@normalize ascii_tables "SELECT backdrop FROM updates"))
    by (by apply begins_with_check).
  assert (Hwords : ∀ w, w ∈ blacklist_words →
            embedded_only w
              (@normalize ascii_tables "SELECT backdrop FROM updates")).
  { intros w Hw. unfold blacklist_words in Hw.
    each_element Hw; by apply embedded_only_check. }
  assert (Hphrases : ∀ p, p ∈ blacklist_phrases →
            ¬ substring_of p
                (@normalize ascii_tables "SELECT backdrop FROM updates")).
  { intros p Hp. unfold blacklist_phrases in Hp.
    each_element Hp; by apply Contains_false. }
  split; [done|].
  exact (@C4_embedded_words_accepted ascii_tables
           "SELECT backdrop FROM updates" Hsel Hwords Hphrases).
Defined.

(** ** The Executor: rejection *)
Section ExecutorRejection.
Context `{UnicodeTables}.

Lemma ExecuteQuery_empty env params limit offset :
  ExecuteQuery env "" params limit offset =
    (failed "sql_query cannot be empty", []).
Proof. reflexivity. Qed.

Lemma ExecuteQuery_invalid env q params limit offset err :
  q ≠ "" → ValidateQuery q = Some err →
  ExecuteQuery env q params limit offset =
    (failed ("invalid query: " +:+ err), []).
Proof.
  intros Hq Hv. unfold ExecuteQuery. rewrite decide_False by done.
  by rewrite Hv.
Qed.

End ExecutorRejection.

(** *** Claim C5 *)

(** C5: a query whose normalized text (lower-cased, outer white space
    trimmed) does not begin with [select] is rejected by the Validator, and
    the Executor returns an error for it: the Validator's rejection behind
    the prefix [invalid query: ] (for the empty query, the Executor's own
    error for empty text), with no result and no query issued. *)
Theorem C5_non_select_rejected `{UnicodeTables} (env : Env) (q : string)
    (params : gmap string string) (limit offset : Z) :
  ¬ begins_with "select" (normalize q) →
  ValidateQuery q = Some "only SELECT queries are allowed" ∧
  ∃ err, ExecuteQuery env q params limit offset = ((None, 0, Some err), []) ∧
    (q ≠ "" → err = "invalid query: only SELECT queries are allowed").
Proof.
  intros Hns. apply ValidateQuery_not_select in Hns as Hv. split; [done|].
  destruct (decide (q = "")) as [->|Hq].
  - exists "sql_query cannot be empty". by rewrite ExecuteQuery_empty.
  - exists "invalid query: only SELECT queries are allowed".
    by rewrite (ExecuteQuery_invalid _ _ _ _ _ _ Hq Hv).
Qed.

Lemma C5_non_select_rejected_witness :
  let q := "  Delete from retailers" in
  ¬ begins_with "select" (@normalize ascii_tables q) ∧
  (@ValidateQuery ascii_tables q = Some "only SELECT queries are allowed" ∧
   ∃ err, @ExecuteQuery ascii_tables sample_env q ∅ 10 0 =
            ((None, 0, Some err), []) ∧
     (q ≠ "" → err = "invalid query: only SELECT queries are allowed")).
Proof.
  assert (Hns : ¬ begins_with "select"
                  (@normalize ascii_tables "  Delete from retailers"))
    by (by apply not_begins_with_check).
  split; [done|].
  exact (@C5_non_select_rejected ascii_tables sample_env
           "  Delete from retailers" ∅ 10 0 Hns).
Defined.

(** *** Claim C6 *)

(** C6, as stated, fails: the text below contains the blacklisted word
    [drop] as a whole word, delimited by the start of the text and a space;
    the Validator rejects it, but the rejection names no keyword: the check
    for [select] comes first and reports that only SELECT queries are
    allowed. *)
Lemma C6_non_select_names_no_keyword :
  let q := "drop table retailers" in
  "drop" ∈ blacklist ∧
  whole_word "drop" (@normalize ascii_tables q) ∧
  @ValidateQuery ascii_tables q = Some "only SELECT queries are allowed" ∧
  ∀ k, @ValidateQuery ascii_tables q ≠
         Some ("query contains forbidden keyword: " +:+ k).
Proof.
  split; [by apply list_elem_of_here|].
  split; [by apply whole_word_check|]. split; [done|].
  intros k. change (@ValidateQuery ascii_tables "drop table retailers")
    with (Some "only SELECT queries are allowed").
  change ("query contains forbidden keyword: " +:+ k)
    with (String "q" ("uery contains forbidden keyword: " +:+ k)).
  discriminate.
Qed.

(** C6, amended: a query that contains a blacklisted word or phrase as a
    whole word, delimited on each side by a space or an end of the text, is
    rejected by the Validator.  When the normalized text begins with
    [select] the rejection names the first keyword, in the order of the
    code's list, that the padded text contains; otherwise the rejection says
    that only SELECT queries are allowed. *)
Theorem C6_whole_keyword_rejected `{UnicodeTables} (q w : string) :
  w ∈ blacklist → whole_word w (normalize q) →
  (¬ begins_with "select" (normalize q) ∧
   ValidateQuery q = Some "only SELECT queries are allowed") ∨
  (begins_with "select" (normalize q) ∧
   ∃ k, first_match (λ k, substring_of k (" " +:+ normalize q +:+ " "))
          dangerousKeywords k ∧
        ValidateQuery q =
          Some ("query contains forbidden keyword: " +:+ TrimSpace k)).
Proof.
  intros Hw Hocc.
  destruct (HasPrefix (normalize q) "select") eqn:Hsel.
  - right. apply begins_with_check in Hsel. split; [done|].
    rewrite ValidateQuery_select by done.
    destruct (scan_keywords_first (" " +:+ normalize q +:+ " ")
                dangerousKeywords) as [[_ Hnone]|(k & Hfirst & ->)];
      [|by exists k].
    destruct (whole_word_match w _ Hw Hocc) as (k & Hk & Hsub).
    rewrite Forall_forall in Hnone. by apply Hnone in Hk.
  - left. apply not_begins_with_check in Hsel.
    split; [done|]. by apply ValidateQuery_not_select.
Qed.

Lemma C6_whole_keyword_rejected_witness :
  let q := "select name from retailers where delete = 1 and update = 2" in
  ("update" ∈ blacklist ∧ whole_word "update" (@normalize ascii_tables q)) ∧
  ((¬ begins_with "select" (@normalize ascii_tables q) ∧
    @ValidateQuery ascii_tables q = Some "only SELECT queries are allowed") ∨
   (begins_with "select" (@normalize ascii_tables q) ∧
    ∃ k, first_match
           (λ k, substring_of k (" " +:+ @normalize ascii_tables q +:+ " "))
           dangerousKeywords k ∧
         @ValidateQuery ascii_tables q =
           Some ("query contains forbidden keyword: " +:+
                 @TrimSpace ascii_tables k))).
Proof.
  assert (Hw : "update" ∈ blacklist).
  { unfold blacklist, blacklist_words. simpl. rewrite !elem_of_cons. tauto. }
  assert (Hocc : whole_word "update"
            (@normalize ascii_tables
               "select name from retailers where delete = 1 and update = 2"))
    by (by apply whole_word_check).
  split; [done|].
  exact (@C6_whole_keyword_rejected ascii_tables
           "select name from retailers where delete = 1 and update = 2"
           "update" Hw Hocc).
Defined.

(** The first keyword of the list wins: the query of the witness is
    reported for [delete], which precedes [update] in the list. *)
Example ValidateQuery_first_keyword :
  @ValidateQuery ascii_tables
    "select name from retailers where delete = 1 and update = 2" =
  Some "query contains forbidden keyword: delete".
Proof. reflexivity. Qed.

(** ** The Executor: binding, execution and materialisation *)
Section ExecutorFacts.
Context `{UnicodeTables}.

(** The counting loop appends, for the indices [m], [m+1], ... in turn, the
    values that are present. *)
Lemma bind_loop_present params n : ∀ (m : nat) args,
  bind_loop n (Z.of_nat m) params args =
    args ++ omap (λ i : nat, VString <$> params !! Itoa (Z.of_nat i)) (seq m n).
Proof.
  induction n as [|n IH]; intros m args; simpl.
  - by rewrite List.app_nil_r.
  - replace (Z.of_nat m + 1) with (Z.of_nat (S m)) by lia.
    rewrite IH. destruct (params !! Itoa (Z.of_nat m)) as [v|]; simpl.
    + by rewrite <-List.app_assoc.
    + done.
Qed.

Lemma bind_parameters_present params :
  bind_parameters params = present_values params (size params).
Proof. apply (bind_loop_present params (size params) 1 []). Qed.

(** Once the query is accepted, exactly one query is issued: the paginated
    text with the bound arguments. *)
Lemma ExecuteQuery_issued env q params limit offset :
  q ≠ "" → ValidateQuery q = None →
  (ExecuteQuery env q params limit offset).2 =
    [(paginate q limit offset, bind_parameters params)].
Proof.
  intros Hq Hv. unfold ExecuteQuery. rewrite decide_False by done.
  rewrite Hv.
  destruct (backend env _ _) as [e|cur]; [done|].
  destruct (cursor_columns cur) as [e|cols]; [done|].
  destruct (scan_rows _ _ _ _) as [e|rows]; [done|].
  by destruct (cursor_err cur).
Qed.

(** Every return of the Executor is either an error with no result and a
    zero time, or a result with the measured time and no error. *)
Lemma ExecuteQuery_outcome env q params limit offset :
  (∃ err, (ExecuteQuery env q params limit offset).1 = (None, 0, Some err)) ∨
  (∃ result,
     (ExecuteQuery env q params limit offset).1 =
       (Some result, elapsed_ms env, None)).
Proof.
  unfold ExecuteQuery, failed. destruct (decide (q = "")); [left; eauto|].
  destruct (ValidateQuery q); [left; eauto|].
  destruct (backend env _ _) as [e|cur]; [left; eauto|].
  destruct (cursor_columns cur) as [e|cols]; [left; eauto|].
  destruct (scan_rows _ _ _ _) as [e|rows]; [left; eauto|].
  destruct (cursor_err cur); [left; eauto|right; eauto].
Qed.

(** One pass of the filling loop binds every column name to the value at
    its last position and leaves the other keys as they were. *)
Lemma fill_row_lookup cols : ∀ i vals m,
  (i + length cols ≤ length vals)%nat →
  (∀ j c, cols !! j = Some c →
     (∀ j', (j < j')%nat → cols !! j' ≠ Some c) →
     fill_row i cols vals m !! c = vals !! (i + j)%nat) ∧
  (∀ c, c ∉ cols → fill_row i cols vals m !! c = m !! c).
Proof.
  induction cols as [|c0 cols IH]; intros i vals m Hlen; simpl in *.
  - split; [by intros j c ?|done].
  - destruct (IH (S i) vals (<[c0:=nth i vals VNil]> m)) as [IH1 IH2];
      [lia|]. split.
    + intros [|j] c Hj Hlast; simpl in Hj.
      * injection Hj as ->. rewrite IH2.
        { rewrite lookup_insert_eq, Nat.add_0_r, nth_lookup.
          destruct (lookup_lt_is_Some_2 vals i) as [v ->]; [lia|done]. }
        intros (j' & Hj')%list_elem_of_lookup.
        by apply (Hlast (S j')); [lia|].
      * rewrite IH1 with (j := j); [f_equal; lia|done|].
        intros j' Hlt. apply (Hlast (S j')). lia.
    + intros c [Hne Hnot]%not_elem_of_cons.
      by rewrite IH2, lookup_insert_ne.
Qed.

Lemma fill_row_binds cols vals :
  length vals = length cols → binds cols vals (fill_row 0 cols vals ∅).
Proof.
  intros Hlen. destruct (fill_row_lookup cols 0 vals ∅) as [H1 H2]; [lia|].
  split; [exact H1|]. intros c Hc. by rewrite H2.
Qed.

(** The row loop appends one row map per backend row, in the order of the
    backend. *)
Lemma scan_rows_binds cols data : ∀ columnValues acc,
  length columnValues = length cols →
  Forall (λ vals, length vals = length cols) data →
  ∃ rows, scan_rows (map inr data) cols columnValues acc = inr (acc ++ rows) ∧
          Forall2 (binds cols) data rows.
Proof.
  induction data as [|vals data IH]; intros cv acc Hcv Hall; simpl.
  - exists []. by rewrite List.app_nil_r.
  - apply Forall_cons in Hall as [Hvals Hall]. unfold Scan.
    rewrite decide_True by congruence.
    destruct (IH vals (acc ++ [fill_row 0 cols vals ∅]) Hvals Hall)
      as (rows & -> & Hrows).
    exists (fill_row 0 cols vals ∅ :: rows). rewrite <-List.app_assoc.
    split; [done|]. constructor; [by apply fill_row_binds|done].
Qed.

End ExecutorFacts.

(** *** Claim C3 *)

(** C3: for an accepted query the Executor issues one backend query whose
    positional arguments are the values of the keys ["1"] to
    ["count(parameters)"] that are present in the mapping, by increasing
    index; an absent index adds nothing and raises no error. *)
Theorem C3_positional_arguments `{UnicodeTables} (env : Env) (q : string)
    (params : gmap string string) (limit offset : Z) :
  q ≠ "" → ValidateQuery q = None →
  (ExecuteQuery env q params limit offset).2 =
    [(paginate q limit offset, present_values params (size params))].
Proof.
  intros Hq Hv. rewrite <-bind_parameters_present.
  by apply ExecuteQuery_issued.
Qed.

Lemma C3_positional_arguments_witness :
  let q := "select id from retailers where name = ? and id <> ?" in
  let params : gmap string string := {[ "1" := "Acme"; "3" := "r9" ]} in
  (q ≠ "" ∧ @ValidateQuery ascii_tables q = None) ∧
  (@ExecuteQuery ascii_tables sample_env q params 5 0).2 =
    [(paginate q 5 0, present_values params (size params))].
Proof.
  assert (Hq : "select id from retailers where name = ? and id <> ?" ≠ "")
    by done.
  assert (Hv : @ValidateQuery ascii_tables
                 "select id from retailers where name = ? and id <> ?" = None)
    by reflexivity.
  split; [done|].
  exact (@C3_positional_arguments ascii_tables sample_env
           "select id from retailers where name = ? and id <> ?"
           {[ "1" := "Acme"; "3" := "r9" ]} 5 0 Hq Hv).
Defined.

(** With a gap at index 2 the mapping has two entries, so the loop visits
    the indices 1 and 2 only: the value at key ["3"] is not bound. *)
Example bind_parameters_gap :
  bind_parameters {[ "1" := "Acme"; "3" := "r9" ]} = [VString "Acme"].
Proof. by vm_compute. Qed.

Example paginate_example :
  paginate "select 1" 10000 20 = "select 1 LIMIT 10000 OFFSET 20".
Proof. by vm_compute. Qed.

(** *** Claim C10 *)

(** C10: for a query that is empty or that the Validator rejects, the
    Executor returns an error, with no result and a zero time, and issues no
    query to the backend. *)
Theorem C10_rejected_never_reaches_backend `{UnicodeTables} (env : Env)
    (q : string) (params : gmap string string) (limit offset : Z) :
  q = "" ∨ ValidateQuery q ≠ None →
  ∃ err, ExecuteQuery env q params limit offset = ((None, 0, Some err), []).
Proof.
  intros [->|Hv].
  - eexists. apply ExecuteQuery_empty.
  - destruct (decide (q = "")) as [->|Hq].
    + eexists. apply ExecuteQuery_empty.
    + destruct (ValidateQuery q) as [err|] eqn:Hq'; [|done].
      eexists. by apply ExecuteQuery_invalid.
Qed.

Lemma C10_rejected_never_reaches_backend_witness :
  let q := "select 1; drop table retailers" in
  (q = "" ∨ @ValidateQuery ascii_tables q ≠ None) ∧
  ∃ err, @ExecuteQuery ascii_tables sample_env q ∅ 0 0 =
           ((None, 0, Some err), []).
Proof.
  assert (Hv : "select 1; drop table retailers" = "" ∨
               @ValidateQuery ascii_tables "select 1; drop table retailers"
                 ≠ None) by (by right).
  split; [done|].
  exact (@C10_rejected_never_reaches_backend ascii_tables sample_env
           "select 1; drop table retailers" ∅ 0 0 Hv).
Defined.

(** *** Claim C1 *)

(** C1, as stated, fails: the Executor materialises the row of the sample
    backend, whose columns are [id] then [name], as a Go map, and a Go map
    has no iteration order of its own: a [range] loop may visit [name]
    before [id]. *)
Lemma C1_row_map_has_no_order :
  ∃ row,
    (@ExecuteQuery ascii_tables sample_env "select id, name from retailers"
       ∅ 0 0).1 =
      (Some {| Columns := ["id"; "name"]; Rows := [row] |}, 3, None) ∧
    ∃ range, range_order range ∧ (range row).*1 ≠ ["id"; "name"].
Proof.
  eexists. split; [reflexivity|].
  exists (λ m, if decide ((map_to_list m).*1 = ["id"; "name"])
               then reverse (map_to_list m) else map_to_list m).
  split.
  - intros m. case_decide; [apply reverse_Permutation|done].
  - case_decide as Hk; [|done].
    rewrite fmap_reverse, Hk. by vm_compute.
Qed.

(** Two backend rows that list the same bindings in different column orders
    give the same row map: nothing in the map records the order. *)
Example fill_row_forgets_order :
  fill_row 0 ["id"; "name"] [VString "r1"; VString "Acme"] ∅ =
  fill_row 0 ["name"; "id"] [VString "Acme"; VString "r1"] ∅.
Proof. simpl. by apply insert_insert_ne. Qed.

(** C1, amended: when the backend answers an accepted query with columns
    [cols] and rows [data], the result lists the rows in the order the
    backend returned them and its [Columns] field lists the column names in
    the order the backend reported them; each row is an unordered mapping
    that binds every column name to the value of that column in its row (of
    the last such column when a name is repeated) and binds nothing else. *)
Theorem C1_rows_and_columns_in_backend_order `{UnicodeTables} (env : Env)
    (q : string) (params : gmap string string) (limit offset : Z)
    (cur : Cursor) (cols : list string) (data : list (list value)) :
  q ≠ "" → ValidateQuery q = None →
  backend env (paginate q limit offset) (bind_parameters params) = inr cur →
  cursor_columns cur = inr cols →
  cursor_scans cur = map inr data →
  cursor_err cur = None →
  Forall (λ vals, length vals = length cols) data →
  ∃ rows,
    (ExecuteQuery env q params limit offset).1 =
      (Some {| Columns := cols; Rows := rows |}, elapsed_ms env, None) ∧
    Forall2 (binds cols) data rows.
Proof.
  intros Hq Hv Hb Hcols Hscans Herr Hall. unfold ExecuteQuery.
  rewrite decide_False by done. rewrite Hv, Hb, Hcols, Hscans.
  destruct (scan_rows_binds cols data (replicate (length cols) VNil) [])
    as (rows & -> & Hrows); [by rewrite length_replicate|done|].
  rewrite Herr. by exists rows.
Qed.

Lemma C1_rows_and_columns_in_backend_order_witness :
  let q := "select id, name from retailers" in
  (q ≠ "" ∧ @ValidateQuery ascii_tables q = None ∧
   backend sample_env (paginate q 0 0) (bind_parameters ∅) = inr sample_cursor ∧
   cursor_columns sample_cursor = inr ["id"; "name"] ∧
   cursor_scans sample_cursor = map inr [[VString "r1"; VString "Acme"]] ∧
   cursor_err sample_cursor = None ∧
   Forall (λ vals, length vals = length ["id"; "name"])
     [[VString "r1"; VString "Acme"]]) ∧
  ∃ rows,
    (@ExecuteQuery ascii_tables sample_env q ∅ 0 0).1 =
      (Some {| Columns := ["id"; "name"]; Rows := rows |},
       elapsed_ms sample_env, None) ∧
    Forall2 (binds ["id"; "name"]) [[VString "r1"; VString "Acme"]] rows.
Proof.
  assert (Hq : "select id, name from retailers" ≠ "") by done.
  assert (Hv : @ValidateQuery ascii_tables "select id, name from retailers"
               = None) by reflexivity.
  assert (Hall : Forall (λ vals : list value, length vals = length ["id"; "name"])
                   [[VString "r1"; VString "Acme"]]).
  { constructor; [reflexivity|constructor]. }
  split; [done|].
  exact (@C1_rows_and_columns_in_backend_order ascii_tables sample_env
           "select id, name from retailers" ∅ 0 0 sample_cursor
           ["id"; "name"] [[VString "r1"; VString "Acme"]]
           Hq Hv eq_refl eq_refl eq_refl eq_refl Hall).
Defined.

(** ** The facade *)
Section FacadeFacts.
Context `{UnicodeTables}.

(** Past the validation gate the handler calls the Executor once, with the
    clamped limit, and answers from its outcome. *)
Lemma GetRetailers_admitted env range req :
  SqlQuery req ≠ "" → 0 ≤ Limit req → 0 ≤ Offset req →
  let exec := ExecuteQuery env (SqlQuery req) (Parameters req)
                (clamp (Limit req)) (Offset req) in
  (GetRetailers env range req).2 =
    EvExecuteQuery (SqlQuery req) (Parameters req) (clamp (Limit req))
      (Offset req) :: map (λ q, EvQueryContext q.1 q.2) exec.2 ∧
  ((∃ err, exec.1 = (None, 0, Some err) ∧
      (GetRetailers env range req).1 =
        Response {| Retailers := []; Count := 0; ExecutionTimeMs := 0;
               Error := err |}) ∨
   (∃ result, exec.1 = (Some result, elapsed_ms env, None) ∧
      (GetRetailers env range req).1 =
        Response {| Retailers := convertToRetailers range result;
               Count := Z.of_nat (length (convertToRetailers range result));
               ExecutionTimeMs := elapsed_ms env; Error := "" |})).
Proof.
  intros Hq Hl Ho exec. unfold GetRetailers.
  rewrite decide_False by done.
  destruct (Z.ltb_spec (Limit req) 0) as [?|_]; [lia|].
  destruct (Z.ltb_spec (Offset req) 0) as [?|_]; [lia|].
  assert (Hreq :
    (if 10000 <? Limit req
     then {| SqlQuery := SqlQuery req; Parameters := Parameters req;
             Limit := 10000; Offset := Offset req |} else req) =
    {| SqlQuery := SqlQuery req; Parameters := Parameters req;
       Limit := clamp (Limit req); Offset := Offset req |}).
  { unfold clamp. destruct (10000 <? Limit req); [done|by destruct req]. }
  rewrite Hreq. simpl. fold exec.
  destruct (ExecuteQuery_outcome env (SqlQuery req) (Parameters req)
              (clamp (Limit req)) (Offset req)) as [[err He]|[result He]];
    fold exec in He; destruct exec as [[[res time] err'] issued];
    simpl in He; injection He as -> -> ->; simpl.
  - split; [done|]. left. by exists err.
  - split; [done|]. right. exists result. split; [done|].
    by destruct (convertToRetailers range result).
Qed.

(** The handler never dereferences a nil result. *)
Lemma GetRetailers_no_panic env range req :
  (GetRetailers env range req).1 ≠ Panic.
Proof.
  destruct (decide (SqlQuery req = "")) as [Hq|Hq];
    [|destruct (Z.ltb_spec (Limit req) 0) as [Hl|Hl];
      [|destruct (Z.ltb_spec (Offset req) 0) as [Ho|Ho]]].
  - unfold GetRetailers. by rewrite decide_True.
  - unfold GetRetailers. rewrite decide_False by done.
    by destruct (Z.ltb_spec (Limit req) 0); [|lia].
  - unfold GetRetailers. rewrite decide_False by done.
    destruct (Z.ltb_spec (Limit req) 0); [lia|].
    by destruct (Z.ltb_spec (Offset req) 0); [|lia].
  - destruct (GetRetailers_admitted env range req Hq Hl Ho)
      as [_ [(e & _ & ->)|(r & _ & ->)]]; done.
Qed.

End FacadeFacts.

(** A successful call against the sample backend. *)
Example GetRetailers_sample :
  @GetRetailers ascii_tables sample_env map_to_list
    {| SqlQuery := "SELECT id, name FROM retailers"; Parameters := ∅;
       Limit := 10; Offset := 20 |} =
  (Response
     {| Retailers := [ {| Id := Some "r1"; Name := Some "Acme";
                          CreatedAt := None |} ];
        Count := 1; ExecutionTimeMs := 3; Error := "" |},
   [EvExecuteQuery "SELECT id, name FROM retailers" ∅ 10 20;
    EvQueryContext "SELECT id, name FROM retailers LIMIT 10 OFFSET 20" []]).
Proof. by vm_compute. Qed.

(** *** Claim C2 *)

(** C2: for a request with non-empty query text and non-negative limit and
    offset, when the Executor (called with the clamped limit) fails, the
    handler returns a response with a nil transport error; the response
    carries the Executor's error message, no retailers, count 0 and
    execution time 0. *)
Theorem C2_executor_failure_is_embedded `{UnicodeTables} (env : Env)
    (range : RangeOrder) (req : GetRetailersRequest) (err : string) :
  SqlQuery req ≠ "" → 0 ≤ Limit req → 0 ≤ Offset req →
  (ExecuteQuery env (SqlQuery req) (Parameters req) (clamp (Limit req))
     (Offset req)).1.2 = Some err →
  (GetRetailers env range req).1 =
    Response {| Retailers := []; Count := 0; ExecutionTimeMs := 0; Error := err |}.
Proof.
  intros Hq Hl Ho Herr.
  destruct (GetRetailers_admitted env range req Hq Hl Ho)
    as [_ [(e & He & ->)|(result & He & _)]].
  - rewrite He in Herr. by injection Herr as ->.
  - by rewrite He in Herr.
Qed.

Lemma C2_executor_failure_is_embedded_witness :
  let req := {| SqlQuery := "select id from retailers"; Parameters := ∅;
                Limit := 10; Offset := 0 |} in
  (SqlQuery req ≠ "" ∧ 0 ≤ Limit req ∧ 0 ≤ Offset req ∧
   (@ExecuteQuery ascii_tables refusing_env (SqlQuery req) (Parameters req)
      (clamp (Limit req)) (Offset req)).1.2 =
     Some "failed to execute query: connection refused") ∧
  (@GetRetailers ascii_tables refusing_env map_to_list req).1 =
    Response {| Retailers := []; Count := 0; ExecutionTimeMs := 0;
           Error := "failed to execute query: connection refused" |}.
Proof.
  assert (Hq : "select id from retailers" ≠ "") by done.
  assert (Hl : 0 ≤ 10) by lia.
  assert (Ho : 0 ≤ 0) by lia.
  split; [done|].
  exact (@C2_executor_failure_is_embedded ascii_tables refusing_env
           map_to_list
           {| SqlQuery := "select id from retailers"; Parameters := ∅;
              Limit := 10; Offset := 0 |}
           "failed to execute query: connection refused" Hq Hl Ho eq_refl).
Defined.

(** A safety violation takes the same path as a backend error. *)
Example GetRetailers_safety_violation :
  @GetRetailers ascii_tables sample_env map_to_list
    {| SqlQuery := "select 1; drop table retailers"; Parameters := ∅;
       Limit := 0; Offset := 0 |} =
  (Response {| Retailers := []; Count := 0; ExecutionTimeMs := 0;
          Error := "invalid query: query contains forbidden keyword: drop" |},
   [EvExecuteQuery "select 1; drop table retailers" ∅ 0 0]).
Proof. reflexivity. Qed.

(** *** Claim C7 *)

(** C7, as stated, fails: a request with a limit above 10000 and a negative
    offset is rejected; the clamp sits behind the validation gate. *)
Lemma C7_clamp_sits_behind_the_gate :
  @GetRetailers ascii_tables sample_env map_to_list
    {| SqlQuery := "select id from retailers"; Parameters := ∅;
       Limit := 20000; Offset := -1 |} =
  (StatusError {| status_code := InvalidArgument;
          status_message := "offset cannot be negative" |}, []).
Proof. reflexivity. Qed.

(** C7, amended: for a request with non-empty query text, a non-negative
    offset and a limit above 10000, the handler does not reject: it calls
    the Executor with the limit 10000, and returns a response with a nil
    transport error. *)
Theorem C7_limit_clamped `{UnicodeTables} (env : Env) (range : RangeOrder)
    (req : GetRetailersRequest) :
  SqlQuery req ≠ "" → 0 ≤ Offset req → 10000 < Limit req →
  ∃ resp,
    GetRetailers env range req =
      (Response resp,
       EvExecuteQuery (SqlQuery req) (Parameters req) 10000 (Offset req)
       :: map (λ q, EvQueryContext q.1 q.2)
            (ExecuteQuery env (SqlQuery req) (Parameters req) 10000
               (Offset req)).2).
Proof.
  intros Hq Ho Hl.
  destruct (GetRetailers_admitted env range req Hq ltac:(lia) Ho)
    as [Hev Hres].
  assert (Hc : clamp (Limit req) = 10000).
  { unfold clamp. destruct (Z.ltb_spec 10000 (Limit req)); [done|lia]. }
  rewrite Hc in Hev, Hres.
  destruct (GetRetailers env range req) as [res evs]. simpl in *. subst evs.
  destruct Hres as [(e & _ & ->)|(r & _ & ->)]; eauto.
Qed.

Lemma C7_limit_clamped_witness :
  let req := {| SqlQuery := "select id, name from retailers";
                Parameters := ∅; Limit := 20000; Offset := 0 |} in
  (SqlQuery req ≠ "" ∧ 0 ≤ Offset req ∧ 10000 < Limit req) ∧
  ∃ resp,
    @GetRetailers ascii_tables sample_env map_to_list req =
      (Response resp,
       EvExecuteQuery (SqlQuery req) (Parameters req) 10000 (Offset req)
       :: map (λ q, EvQueryContext q.1 q.2)
            (@ExecuteQuery ascii_tables sample_env (SqlQuery req)
               (Parameters req) 10000 (Offset req)).2).
Proof.
  assert (Hq : "select id, name from retailers" ≠ "") by done.
  assert (Ho : 0 ≤ 0) by lia.
  assert (Hl : 10000 < 20000) by lia.
  split; [done|].
  exact (@C7_limit_clamped ascii_tables sample_env map_to_list
           {| SqlQuery := "select id, name from retailers";
              Parameters := ∅; Limit := 20000; Offset := 0 |} Hq Ho Hl).
Defined.

(** The clamped limit is what reaches the backend. *)
Example GetRetailers_clamped_query :
  (@GetRetailers ascii_tables sample_env map_to_list
     {| SqlQuery := "select id, name from retailers"; Parameters := ∅;
        Limit := 20000; Offset := 0 |}).2 =
  [EvExecuteQuery "select id, name from retailers" ∅ 10000 0;
   EvQueryContext "select id, name from retailers LIMIT 10000" []].
Proof. by vm_compute. Qed.

(** *** Claim C8 *)

(** C8: a request with empty query text, a negative limit or a negative
    offset is answered with an invalid-argument status error, and neither
    the Executor nor the backend is called. *)
Theorem C8_invalid_arguments_rejected `{UnicodeTables} (env : Env)
    (range : RangeOrder) (req : GetRetailersRequest) :
  SqlQuery req = "" ∨ Limit req < 0 ∨ Offset req < 0 →
  ∃ msg,
    GetRetailers env range req =
      (StatusError {| status_code := InvalidArgument; status_message := msg |}, []).
Proof.
  intros Hbad. unfold GetRetailers.
  destruct (decide (SqlQuery req = "")); [eauto|].
  destruct (Z.ltb_spec (Limit req) 0); [eauto|].
  destruct (Z.ltb_spec (Offset req) 0); [eauto|].
  exfalso. destruct Hbad as [?|[?|?]]; [done|lia|lia].
Qed.

Lemma C8_invalid_arguments_rejected_witness :
  let req := {| SqlQuery := "select id from retailers"; Parameters := ∅;
                Limit := -5; Offset := 0 |} in
  (SqlQuery req = "" ∨ Limit req < 0 ∨ Offset req < 0) ∧
  ∃ msg,
    @GetRetailers ascii_tables sample_env map_to_list req =
      (StatusError {| status_code := InvalidArgument; status_message := msg |}, []).
Proof.
  assert (Hbad : "select id from retailers" = "" ∨ -5 < 0 ∨ 0 < 0)
    by (right; left; lia).
  split; [done|].
  exact (@C8_invalid_arguments_rejected ascii_tables sample_env map_to_list
           {| SqlQuery := "select id from retailers"; Parameters := ∅;
              Limit := -5; Offset := 0 |} Hbad).
Defined.

(** ** The Result Mapper *)

(** A fold whose step overwrites an optional field with what the entry
    contributes leaves the field at the last contribution. *)
Section LastContribution.
Context {S E X : Type} (step : S → E → S) (get : S → option X)
  (contribution : E → option X).
Hypothesis get_step : ∀ r e,
  get (step r e) =
    match contribution e with Some x => Some x | None => get r end.

Lemma foldl_last_contribution l : ∀ r,
  get (foldl step r l) =
    match last (omap contribution l) with
    | Some x => Some x
    | None => get r
    end.
Proof.
  induction l as [|e l IH]; intros r; simpl; [done|].
  rewrite IH, get_step. destruct (contribution e) as [x|]; simpl; [|done].
  rewrite last_cons. by destruct (last _).
Qed.

(** When all contributions agree, the order of the entries is
    immaterial. *)
Lemma foldl_agreeing_contributions l r x :
  get r = None →
  (∀ e1 e2 x1 x2, e1 ∈ l → e2 ∈ l →
     contribution e1 = Some x1 → contribution e2 = Some x2 → x1 = x2) →
  get (foldl step r l) = Some x ↔ ∃ e, e ∈ l ∧ contribution e = Some x.
Proof.
  intros Hr Hagree. rewrite foldl_last_contribution, Hr. split.
  - destruct (last (omap contribution l)) as [y|] eqn:Hlast; [|done].
    intros [= ->]. apply last_Some_elem_of in Hlast.
    by apply list_elem_of_omap in Hlast.
  - intros (e & He & Hx).
    assert (Hin : x ∈ omap contribution l)
      by (apply list_elem_of_omap; eauto).
    destruct (last (omap contribution l)) as [y|] eqn:Hlast.
    + apply last_Some_elem_of, list_elem_of_omap in Hlast
        as (e' & He' & Hy).
      by rewrite (Hagree e' e y x He' He Hy Hx).
    + apply last_None in Hlast. rewrite Hlast in Hin.
      by apply elem_of_nil in Hin.
Qed.

End LastContribution.

Section MapperFacts.
Context `{UnicodeTables}.

Lemma map_column_Id r e :
  Id (map_column r e) =
    match string_column "id" e with Some s => Some s | None => Id r end.
Proof.
  destruct e as [k [| | | | | |]]; unfold string_column; simpl;
    repeat case_decide; try done; congruence.
Qed.

Lemma map_column_Name r e :
  Name (map_column r e) =
    match string_column "name" e with Some s => Some s | None => Name r end.
Proof.
  destruct e as [k [| | | | | |]]; unfold string_column; simpl;
    repeat case_decide; try done; congruence.
Qed.

Lemma map_column_CreatedAt r e :
  CreatedAt (map_column r e) =
    match time_column "created_at" e with
    | Some ts => Some ts
    | None => CreatedAt r
    end.
Proof.
  destruct e as [k [| | | | | |]]; unfold time_column; simpl;
    repeat case_decide; try done; congruence.
Qed.

Lemma string_column_Some name k v s :
  string_column name (k, v) = Some s ↔ ToLower k = name ∧ v = VString s.
Proof.
  unfold string_column; simpl. destruct v; try (split; [done|by intros [_ ?]]).
  case_decide; split; try done; try (intros [= ->]; done);
    intros [? [= ->]]; done.
Qed.

Lemma time_column_Some name k v ts :
  time_column name (k, v) = Some ts ↔
  ToLower k = name ∧ ∃ t, v = VTime t ∧ ts = timestamppb_New t.
Proof.
  unfold time_column; simpl.
  destruct v; try (split; [done|by intros [_ (? & ? & _)]]).
  case_decide; split; try done.
  - intros [= <-]. eauto.
  - intros [_ (t' & [= ->] & ->)]. done.
  - intros [? _]. done.
Qed.

(** The record of a row whose column names do not collide, whatever the
    order in which the runtime visits the row. *)
Lemma map_row_maps_to range row :
  range_order range → unambiguous row → maps_to row (map_row range row).
Proof.
  intros Hrange Hrow. unfold map_row.
  assert (Hin : ∀ k v, (k, v) ∈ range row ↔ row !! k = Some v).
  { intros k v. by rewrite (Hrange row), elem_of_map_to_list. }
  assert (Hkey : ∀ k1 v1 k2 v2, (k1, v1) ∈ range row → (k2, v2) ∈ range row →
            ToLower k1 = ToLower k2 → v1 = v2).
  { intros k1 v1 k2 v2 H1%Hin H2%Hin Hlow.
    assert (k1 = k2) as -> by (apply Hrow; [by eexists..|done]).
    congruence. }
  split; [|split].
  - intros s.
    rewrite (foldl_agreeing_contributions map_column Id (string_column "id")
               map_column_Id); [|done|].
    + split.
      * intros ([k v] & He & [Hk ->]%string_column_Some). exists k.
        by apply Hin in He.
      * intros (k & Hk & Hv%Hin). exists (k, VString s).
        split; [done|]. by apply string_column_Some.
    + intros [k1 v1] [k2 v2] x1 x2 H1 H2
        [Hk1 ->]%string_column_Some [Hk2 ->]%string_column_Some.
      assert (VString x1 = VString x2) by (eapply Hkey; [done..|congruence]).
      congruence.
  - intros s.
    rewrite (foldl_agreeing_contributions map_column Name
               (string_column "name") map_column_Name); [|done|].
    + split.
      * intros ([k v] & He & [Hk ->]%string_column_Some). exists k.
        by apply Hin in He.
      * intros (k & Hk & Hv%Hin). exists (k, VString s).
        split; [done|]. by apply string_column_Some.
    + intros [k1 v1] [k2 v2] x1 x2 H1 H2
        [Hk1 ->]%string_column_Some [Hk2 ->]%string_column_Some.
      assert (VString x1 = VString x2) by (eapply Hkey; [done..|congruence]).
      congruence.
  - intros ts.
    rewrite (foldl_agreeing_contributions map_column CreatedAt
               (time_column "created_at") map_column_CreatedAt); [|done|].
    + split.
      * intros ([k v] & He & [Hk (t & -> & ->)]%time_column_Some).
        exists k, t. by apply Hin in He.
      * intros (k & t & Hk & Hv%Hin & ->). exists (k, VTime t).
        split; [done|]. apply time_column_Some. eauto.
    + intros [k1 v1] [k2 v2] x1 x2 H1 H2
        [Hk1 (t1 & -> & ->)]%time_column_Some
        [Hk2 (t2 & -> & ->)]%time_column_Some.
      assert (VTime t1 = VTime t2) by (eapply Hkey; [done..|congruence]).
      congruence.
Qed.

(** [convertToRetailers] appends one record per row, in order. *)
Lemma convertToRetailers_map range result :
  convertToRetailers range result = map (map_row range) (Rows result).
Proof.
  unfold convertToRetailers.
  assert (Hgen : ∀ rows acc,
            foldl (λ retailers row, retailers ++ [map_row range row]) acc rows
            = acc ++ map (map_row range) rows).
  { induction rows as [|row rows IH]; intros acc; simpl.
    - by rewrite List.app_nil_r.
    - by rewrite IH, <-List.app_assoc. }
  apply (Hgen (Rows result) []).
Qed.

End MapperFacts.

Section MapperCorollaries.
Context `{UnicodeTables}.

(** Round trip under any casing of the column names and any order of
    visit. *)
Lemma map_row_round_trip range row kid kname kcreated id name t :
  range_order range → unambiguous row →
  ToLower kid = "id" → row !! kid = Some (VString id) →
  ToLower kname = "name" → row !! kname = Some (VString name) →
  ToLower kcreated = "created_at" → row !! kcreated = Some (VTime t) →
  map_row range row =
    {| Id := Some id; Name := Some name;
       CreatedAt := Some (timestamppb_New t) |}.
Proof.
  intros Hrange Hrow Hid Hidv Hname Hnamev Hcreated Hcreatedv.
  destruct (map_row_maps_to range row Hrange Hrow) as (HI & HN & HC).
  destruct (map_row range row) as [i n c]; simpl in *. f_equal.
  - apply HI. eauto.
  - apply HN. eauto.
  - apply HC. eauto.
Qed.

(** A column named [id] that holds no string leaves the field unset. *)
Lemma map_row_wrong_type range row :
  range_order range → unambiguous row →
  (∀ k s, ToLower k = "id" → row !! k ≠ Some (VString s)) →
  Id (map_row range row) = None.
Proof.
  intros Hrange Hrow Hno.
  destruct (map_row_maps_to range row Hrange Hrow) as (HI & _ & _).
  destruct (Id (map_row range row)) as [s|]; [|done].
  destruct (proj1 (HI s) eq_refl) as (k & Hk & Hv). by destruct (Hno k s Hk).
Qed.

End MapperCorollaries.

Lemma sample_row_unambiguous t : @unambiguous ascii_tables (sample_row t).
Proof.
  intros k1 k2 H1%elem_of_dom H2%elem_of_dom. unfold sample_row in *.
  rewrite !dom_insert_L, dom_singleton_L in H1, H2.
  rewrite !elem_of_union, !elem_of_singleton in H1, H2.
  destruct H1 as [-> | [-> | [-> | ->]]];
    destruct H2 as [-> | [-> | [-> | ->]]];
    first [done | by intros [=]].
Qed.

(** *** Claim C9 *)

(** C9: the Mapper returns one record per row, in order, and never fails.
    For a row whose column names do not collide up to case, and whatever the
    order in which the runtime visits the row, a field of the record is set
    exactly when a column of the row has the field's name up to case ([id],
    [name], [created_at]) and holds a value of the field's type (a string, a
    string, a timestamp), and it then holds that value.  Hence the row
    [ID]=[r1], [NAME]=[Acme], [CREATED_AT]=[t] gives [id]=[r1],
    [name]=[Acme], [created_at]=[t] under any casing; a column with another
    name sets nothing; a value of another type leaves its field unset. *)
Theorem C9_mapper_round_trip `{UnicodeTables} (range : RangeOrder)
    (result : SQLResult) :
  range_order range → Forall unambiguous (Rows result) →
  Forall2 maps_to (Rows result) (convertToRetailers range result).
Proof.
  intros Hrange Hrows. rewrite convertToRetailers_map.
  induction Hrows as [|row rows Hrow Hrows IH]; simpl; constructor.
  - by apply map_row_maps_to.
  - exact IH.
Qed.

Lemma C9_mapper_round_trip_witness :
  (range_order map_to_list ∧
   Forall (@unambiguous ascii_tables) (Rows sample_result)) ∧
  Forall2 (@maps_to ascii_tables) (Rows sample_result)
    (@convertToRetailers ascii_tables map_to_list sample_result).
Proof.
  assert (Hrange : range_order map_to_list) by (by intros m).
  assert (Hrows : Forall (@unambiguous ascii_tables) (Rows sample_result)).
  { constructor; [apply sample_row_unambiguous|constructor]. }
  split; [done|].
  exact (@C9_mapper_round_trip ascii_tables map_to_list sample_result
           Hrange Hrows).
Defined.

(** The round trip of the specification, evaluated. *)
Example convertToRetailers_sample :
  @convertToRetailers ascii_tables map_to_list sample_result =
  [ {| Id := Some "r1"; Name := Some "Acme";
       CreatedAt := Some {| Seconds := 1700000000; Nanos := 5 |} |} ].
Proof. by vm_compute. Qed.

(** When two columns of a row collide up to case, the record depends on the
    order in which the runtime visits the row. *)
Example map_row_collision :
  let row : gmap string value :=
    {[ "id" := VString "a"; "ID" := VString "b" ]} in
  Id (@map_row ascii_tables map_to_list row) ≠
  Id (@map_row ascii_tables (λ m, reverse (map_to_list m)) row).
Proof. by vm_compute. Qed.

(** ** ASCII text and the Unicode tables

    On a query made of ASCII bytes the Validator never consults the Unicode
    tables: its verdict is the same under every choice of tables. *)

Lemma all_ascii_forallb s :
  all_ascii s = forallb is_ascii (list_ascii_of_string s).
Proof. induction s as [|c s IH]; simpl; [done|]. by rewrite IH. Qed.

Lemma all_ascii_string_rev s : all_ascii (string_rev s) = all_ascii s.
Proof.
  unfold string_rev.
  rewrite !all_ascii_forallb, list_ascii_of_string_of_list_ascii.
  apply eq_true_iff_eq. rewrite !forallb_forall.
  split; intros Hall c Hc; apply Hall; by apply in_rev in Hc.
Qed.

Lemma all_ascii_cons c s :
  all_ascii (String c s) = true ↔ is_ascii c = true ∧ all_ascii s = true.
Proof. simpl. by rewrite andb_true_iff. Qed.

Lemma trim_right_rev_ascii (U1 U2 : UnicodeTables) r :
  all_ascii r = true →
  @trim_right_rev U1 r = @trim_right_rev U2 r ∧
  all_ascii (@trim_right_rev U1 r) = true.
Proof.
  induction r as [|c r IH]; [done|].
  intros [Hc Hr]%all_ascii_cons. simpl. rewrite Hc. simpl.
  destruct (asciiSpace c); [by apply IH|]. split; [done|].
  rewrite (all_ascii_string_rev (String c r)). by apply all_ascii_cons.
Qed.

Lemma TrimSpace_ascii (U1 U2 : UnicodeTables) s :
  all_ascii s = true →
  @TrimSpace U1 s = @TrimSpace U2 s ∧ all_ascii (@TrimSpace U1 s) = true.
Proof.
  induction s as [|c s IH]; [done|].
  intros [Hc Hs]%all_ascii_cons. simpl. rewrite Hc. simpl.
  destruct (asciiSpace c); [by apply IH|].
  apply trim_right_rev_ascii. rewrite (all_ascii_string_rev (String c s)).
  by apply all_ascii_cons.
Qed.

Lemma ToLower_ascii (U1 U2 : UnicodeTables) s :
  all_ascii s = true → @ToLower U1 s = @ToLower U2 s.
Proof. intros Hs. unfold ToLower. by rewrite Hs. Qed.

Lemma normalize_ascii (U1 U2 : UnicodeTables) q :
  all_ascii q = true → @normalize U1 q = @normalize U2 q.
Proof.
  intros Hq. unfold normalize.
  destruct (TrimSpace_ascii U1 U2 q Hq) as [<- Ht]. by apply ToLower_ascii.
Qed.

Lemma scan_keywords_tables (U1 U2 : UnicodeTables) t :
  @scan_keywords U1 t dangerousKeywords = @scan_keywords U2 t dangerousKeywords.
Proof.
  unfold dangerousKeywords. simpl.
  repeat (destruct (Contains t _); [reflexivity|]). reflexivity.
Qed.

Lemma ValidateQuery_ascii (U1 U2 : UnicodeTables) q :
  all_ascii q = true → @ValidateQuery U1 q = @ValidateQuery U2 q.
Proof.
  intros Hq. unfold ValidateQuery.
  fold (@normalize U1 q). fold (@normalize U2 q).
  rewrite (normalize_ascii U1 U2 q Hq).
  destruct (HasPrefix _ "select"); [|done].
  exact (scan_keywords_tables U1 U2 _).
Qed.

(** The verdicts computed above hold under every choice of tables. *)
Example embedded_phrase_rejected_everywhere (U : UnicodeTables) :
  @ValidateQuery U "select backdrop tablet from t" =
    Some "query contains forbidden keyword: drop table".
Proof. by rewrite (ValidateQuery_ascii U ascii_tables). Qed.

Example non_select_rejected_everywhere (U : UnicodeTables) :
  @ValidateQuery U "drop table retailers" =
    Some "only SELECT queries are allowed".
Proof. by rewrite (ValidateQuery_ascii U ascii_tables). Qed.

Example ToLower_example :
  @ToLower ascii_tables "  SeLeCT * FROM T1 " = "  select * from t1 ".
Proof. reflexivity. Qed.

Example TrimSpace_example :
  @TrimSpace ascii_tables (String "009" " select 1  " +:+ String "010" "") = "select 1".
Proof. reflexivity. Qed.

Example Itoa_example : Itoa 10000 = "10000" ∧ Itoa (-7) = "-7".
Proof. split; reflexivity. Qed.


(** * Further properties of the connector *)

(** ** The Validator, exactly *)

Lemma substring_of_trans x p s :
  substring_of x p → substring_of p s → substring_of x s.
Proof.
  intros (a & b & ->) (c & d & ->). exists (c +:+ a), (b +:+ d).
  unfold occurs_between. by str_norm.
Qed.

Lemma whole_word_no_space w s : no_space s → whole_word w s → s = w.
Proof.
  intros Hs (a & b & -> & [->|[a' ->]] & [->|[b' ->]]).
  - by str_norm.
  - destruct Hs. exists w, b'. unfold occurs_between. by str_norm.
  - destruct Hs. exists a', w. unfold occurs_between. by str_norm.
  - destruct Hs. exists a', (w +:+ " " +:+ b'). unfold occurs_between.
    by str_norm.
Qed.

(** X1: the Validator accepts a query exactly when its normalized text
    begins with [select], contains none of the ten blacklisted words as a
    whole word (delimited on each side by a space or an end of the text),
    and contains none of the seven blacklisted phrases anywhere. *)
Theorem ValidateQuery_accepts_iff `{UnicodeTables} (q : string) :
  ValidateQuery q = None ↔
  begins_with "select" (normalize q) ∧
  (∀ w, w ∈ blacklist_words → ¬ whole_word w (normalize q)) ∧
  (∀ p, p ∈ blacklist_phrases → ¬ substring_of p (normalize q)).
Proof.
  split.
  - intros Hv.
    destruct (HasPrefix (normalize q) "select") eqn:Hsel.
    + apply begins_with_check in Hsel. split; [done|].
      rewrite ValidateQuery_select in Hv by done.
      destruct (scan_keywords_first (" " +:+ normalize q +:+ " ")
                  dangerousKeywords) as [[_ Hall]|(k & _ & Hk)];
        [|by rewrite Hk in Hv].
      rewrite Forall_forall in Hall. split.
      * intros w Hw Hocc. apply (Hall (" " +:+ w +:+ " ")).
        -- rewrite dangerousKeywords_blacklist, elem_of_app,
             list_elem_of_fmap. left. by exists w.
        -- by apply padded_word.
      * intros p Hp Hocc. apply (Hall p).
        -- rewrite dangerousKeywords_blacklist, elem_of_app. by right.
        -- by apply substring_padded.
    + apply not_begins_with_check, ValidateQuery_not_select in Hsel.
      by rewrite Hsel in Hv.
  - intros (Hsel & Hwords & Hphrases). rewrite ValidateQuery_select by done.
    destruct (scan_keywords_first (" " +:+ normalize q +:+ " ")
                dangerousKeywords) as [[-> _]|(k & Hfirst & _)]; [done|].
    apply first_match_exists in Hfirst as [Hk Hocc].
    destruct (dangerous_match k _ Hk Hocc) as [(w & Hw & _ & Hww)|[Hp Hsub]].
    + by apply Hwords in Hww.
    + by apply Hphrases in Hsub.
Qed.

(** X2: a query whose normalized text begins with [select] and holds no
    space byte is accepted, whatever else it holds: keywords separated by
    tabs or line feeds are not seen. *)
Theorem ValidateQuery_blind_without_spaces `{UnicodeTables} (q : string) :
  begins_with "select" (normalize q) → no_space (normalize q) →
  ValidateQuery q = None.
Proof.
  intros Hsel Hns. rewrite ValidateQuery_select by done.
  destruct (scan_keywords_first (" " +:+ normalize q +:+ " ")
              dangerousKeywords) as [[-> _]|(k & Hfirst & _)]; [done|].
  apply first_match_exists in Hfirst as [Hk Hocc]. exfalso.
  destruct (dangerous_match k _ Hk Hocc) as [(w & Hw & _ & Hww)|[Hp Hsub]].
  - apply (whole_word_no_space _ _ Hns) in Hww. rewrite Hww in Hsel.
    apply begins_with_iff in Hsel. unfold blacklist_words in Hw.
    each_element Hw; done.
  - apply Hns. apply (substring_of_trans _ k); [|done].
    apply Contains_true. unfold blacklist_phrases in Hp.
    each_element Hp; done.
Qed.

Lemma ValidateQuery_blind_without_spaces_witness :
  (begins_with "select" (@normalize ascii_tables tabbed_query) ∧
   no_space (@normalize ascii_tables tabbed_query)) ∧
  @ValidateQuery ascii_tables tabbed_query = None.
Proof.
  assert (Hsel : begins_with "select" (@normalize ascii_tables tabbed_query))
    by (by apply begins_with_check).
  assert (Hns : no_space (@normalize ascii_tables tabbed_query))
    by (by apply Contains_false).
  split; [done|].
  exact (@ValidateQuery_blind_without_spaces ascii_tables tabbed_query
           Hsel Hns).
Defined.

(** ** The Executor, on every path *)

Lemma literal_app_nonempty c s t : String c s +:+ t ≠ "".
Proof. by rewrite str_app_cons. Qed.

Lemma scan_rows_error_nonempty scans : ∀ cols cv acc err,
  scan_rows scans cols cv acc = inl err → err ≠ "".
Proof.
  induction scans as [|[e|row] scans IH]; intros cols cv acc err; simpl.
  - done.
  - intros [= <-]. apply literal_app_nonempty.
  - destruct (Scan row cv) as [e|cv']; [|by apply IH].
    intros [= <-]. apply literal_app_nonempty.
Qed.

(** The paths of the Executor. *)
Lemma ExecuteQuery_paths `{UnicodeTables} (env : Env) (q : string)
    (params : gmap string string) (limit offset : Z) :
  (∃ err, (ExecuteQuery env q params limit offset).1 = (None, 0, Some err) ∧
          err ≠ "" ∧
          (length (ExecuteQuery env q params limit offset).2 ≤ 1)%nat) ∨
  (∃ result,
     ExecuteQuery env q params limit offset =
       ((Some result, elapsed_ms env, None),
        [(paginate q limit offset, bind_parameters params)])).
Proof.
  unfold ExecuteQuery, failed.
  destruct (decide (q = "")).
  { left. eexists. split; [reflexivity|]. split; [done|simpl; lia]. }
  destruct (ValidateQuery q).
  { left. eexists. split; [reflexivity|].
    split; [apply literal_app_nonempty|simpl; lia]. }
  destruct (backend env _ _) as [e|cur].
  { left. eexists. split; [reflexivity|].
    split; [apply literal_app_nonempty|simpl; lia]. }
  destruct (cursor_columns cur) as [e|cols].
  { left. eexists. split; [reflexivity|].
    split; [apply literal_app_nonempty|simpl; lia]. }
  destruct (scan_rows _ _ _ _) as [e|rows] eqn:Hscan.
  { left. exists e. split; [reflexivity|].
    split; [by apply scan_rows_error_nonempty in Hscan|simpl; lia]. }
  destruct (cursor_err cur).
  { left. eexists. split; [reflexivity|].
    split; [apply literal_app_nonempty|simpl; lia]. }
  right. by eexists.
Qed.

(** X3: whatever the query, the parameters and the backend, the Executor
    returns all or nothing and issues at most one backend query, the
    paginated text with the bound arguments: either an error with a
    non-empty message, no result and a zero time, or a result with the
    measured time and no error, after exactly that one query. *)
Theorem ExecuteQuery_all_or_nothing `{UnicodeTables} (env : Env) (q : string)
    (params : gmap string string) (limit offset : Z) :
  (∃ err, (ExecuteQuery env q params limit offset).1 = (None, 0, Some err) ∧
          err ≠ "" ∧
          ((ExecuteQuery env q params limit offset).2 = [] ∨
           (ExecuteQuery env q params limit offset).2 =
             [(paginate q limit offset, bind_parameters params)])) ∨
  (∃ result,
     ExecuteQuery env q params limit offset =
       ((Some result, elapsed_ms env, None),
        [(paginate q limit offset, bind_parameters params)])).
Proof.
  destruct (ExecuteQuery_paths env q params limit offset)
    as [(err & He & Hne & _)|Hok]; [left|by right].
  exists err. split; [done|]. split; [done|].
  destruct (decide (q = "")) as [->|Hq].
  - left. by rewrite ExecuteQuery_empty.
  - destruct (ValidateQuery q) as [e|] eqn:Hv.
    + left. by rewrite (ExecuteQuery_invalid _ _ _ _ _ _ Hq Hv).
    + right. by apply ExecuteQuery_issued.
Qed.

(** ** Parameter binding *)

Lemma omap_length_le {A B} (f : A → option B) l :
  (length (omap f l) ≤ length l)%nat.
Proof.
  induction l as [|a l IH]; csimpl; [done|].
  destruct (f a); csimpl; lia.
Qed.

Lemma omap_length_full {A B} (f : A → option B) l :
  length (omap f l) = length l ↔ Forall (λ a, is_Some (f a)) l.
Proof.
  induction l as [|a l IH]; csimpl.
  - split; [constructor|done].
  - pose proof (omap_length_le f l) as Hle. destruct (f a) as [b|] eqn:Hb;
      csimpl.
    + split.
      * intros [= Hl]. constructor; [by rewrite Hb|by apply IH].
      * intros [_ Hl%IH]%Forall_cons. by rewrite Hl.
    + split; [lia|]. intros [[? Hs] _]%Forall_cons. by rewrite Hb in Hs.
Qed.

Lemma omap_lookup_full {A B} (f : A → option B) l :
  Forall (λ a, is_Some (f a)) l → ∀ j, omap f l !! j = l !! j ≫= f.
Proof.
  induction 1 as [|a l [b Hb] Hl IH]; intros j; csimpl; [done|].
  rewrite Hb. destruct j; csimpl; [done|apply IH].
Qed.

(** X4: the Executor never binds more arguments than the mapping has
    entries, and it binds as many exactly when every key from ["1"] to
    ["count(parameters)"] is present; otherwise a value is left out
    silently. *)
Theorem bind_parameters_count (params : gmap string string) :
  (length (bind_parameters params) ≤ size params)%nat ∧
  (length (bind_parameters params) = size params ↔
   ∀ i : nat, (1 ≤ i ≤ size params)%nat →
     is_Some (params !! Itoa (Z.of_nat i))).
Proof.
  rewrite bind_parameters_present. unfold present_values.
  set (f := λ i : nat, VString <$> params !! Itoa (Z.of_nat i)).
  pose proof (omap_length_le f (seq 1 (size params))) as Hle.
  pose proof (omap_length_full f (seq 1 (size params))) as Hfull.
  rewrite length_seq in Hle, Hfull. split; [done|].
  rewrite Hfull, Forall_forall. unfold f. split.
  - intros Hall i Hi. apply (fmap_is_Some VString), Hall.
    apply elem_of_seq. lia.
  - intros Hall i Hi%elem_of_seq. rewrite fmap_is_Some. apply Hall. lia.
Qed.

(** X5: when every key from ["1"] to ["count(parameters)"] is present, the
    argument at position [i - 1] is the value of key [i]: placeholders and
    keys line up. *)
Theorem bind_parameters_aligned (params : gmap string string) (i : nat)
    (v : string) :
  (∀ j : nat, (1 ≤ j ≤ size params)%nat →
     is_Some (params !! Itoa (Z.of_nat j))) →
  (1 ≤ i ≤ size params)%nat →
  params !! Itoa (Z.of_nat i) = Some v →
  bind_parameters params !! (i - 1)%nat = Some (VString v).
Proof.
  intros Hall Hi Hv. rewrite bind_parameters_present. unfold present_values.
  rewrite omap_lookup_full.
  - rewrite lookup_seq_lt by lia.
    replace (1 + (i - 1))%nat with i by lia. simpl. by rewrite Hv.
  - apply Forall_forall. intros j Hj%elem_of_seq. rewrite fmap_is_Some.
    apply Hall. lia.
Qed.

Lemma bind_parameters_aligned_witness :
  let params : gmap string string := {[ "1" := "Acme"; "2" := "r9" ]} in
  ((∀ j : nat, (1 ≤ j ≤ size params)%nat →
      is_Some (params !! Itoa (Z.of_nat j))) ∧
   (1 ≤ 2 ≤ size params)%nat ∧
   params !! Itoa (Z.of_nat 2) = Some "r9") ∧
  bind_parameters params !! (2 - 1)%nat = Some (VString "r9").
Proof.
  assert (Hsize : size ({[ "1" := "Acme"; "2" := "r9" ]} : gmap string string)
                  = 2%nat) by (by vm_compute).
  assert (Hall : ∀ j : nat,
            (1 ≤ j ≤ size ({[ "1" := "Acme"; "2" := "r9" ]}
                             : gmap string string))%nat →
            is_Some (({[ "1" := "Acme"; "2" := "r9" ]} : gmap string string)
                       !! Itoa (Z.of_nat j))).
  { rewrite Hsize. intros j Hj.
    assert (j = 1 ∨ j = 2)%nat as [-> | ->] by lia;
      eexists; vm_compute; reflexivity. }
  assert (Hi : (1 ≤ 2 ≤ size ({[ "1" := "Acme"; "2" := "r9" ]}
                                : gmap string string))%nat)
    by (rewrite Hsize; lia).
  split; [split; [exact Hall|split; [exact Hi|reflexivity]]|].
  exact (bind_parameters_aligned {[ "1" := "Acme"; "2" := "r9" ]} 2 "r9"
           Hall Hi eq_refl).
Defined.

(** ** Row maps *)

Lemma fill_row_dom cols : ∀ i vals (m : gmap string value),
  dom (fill_row i cols vals m) = list_to_set cols ∪ dom m.
Proof.
  induction cols as [|c cols IH]; intros i vals m; simpl.
  - by rewrite (left_id_L ∅ (∪)).
  - rewrite IH, dom_insert_L.
    by rewrite (assoc_L (∪)), (comm_L (∪) (list_to_set cols) {[c]}).
Qed.

Lemma size_list_to_set_le (l : list string) :
  (size (list_to_set l : gset string) ≤ length l)%nat.
Proof.
  induction l as [|c l IH].
  - by rewrite list_to_set_nil, size_empty.
  - rewrite list_to_set_cons, size_union_alt, size_singleton. simpl.
    assert (size (list_to_set l ∖ {[c]} : gset string)
            ≤ size (list_to_set l : gset string))%nat.
    { apply subseteq_size. apply subseteq_difference_l. done. }
    lia.
Qed.

Lemma scan_rows_invariant (P : gmap string value → Prop) cols :
  (∀ vals, P (fill_row 0 cols vals ∅)) →
  ∀ scans cv acc rows,
    scan_rows scans cols cv acc = inr rows → Forall P acc → Forall P rows.
Proof.
  intros HP. induction scans as [|[e|row] scans IH]; intros cv acc rows; simpl.
  - by intros [= <-].
  - done.
  - destruct (Scan row cv) as [e|cv']; [done|]. intros Hs Hacc.
    apply (IH _ _ _ Hs). apply Forall_app. split; [done|].
    constructor; [apply HP|constructor].
Qed.

(** X6: in every result of the Executor, the keys of each row map are
    exactly the reported column names; columns that share a name collapse
    into one entry, so a row never has more entries than there are
    columns. *)
Theorem ExecuteQuery_row_keys `{UnicodeTables} (env : Env) (q : string)
    (params : gmap string string) (limit offset : Z) (result : SQLResult)
    (time : Z) :
  (ExecuteQuery env q params limit offset).1 = (Some result, time, None) →
  Forall (λ row : gmap string value,
            dom row = list_to_set (Columns result) ∧
            (size row ≤ length (Columns result))%nat)
    (Rows result).
Proof.
  unfold ExecuteQuery, failed. destruct (decide (q = "")); [done|].
  destruct (ValidateQuery q); [done|].
  destruct (backend env _ _) as [e|cur]; [done|].
  destruct (cursor_columns cur) as [e|cols]; [done|].
  destruct (scan_rows _ _ _ _) as [e|rows] eqn:Hscan; [done|].
  destruct (cursor_err cur); [done|]. intros [= <- _]. simpl.
  apply (scan_rows_invariant
           (λ row : gmap string value,
              dom row = list_to_set cols ∧ (size row ≤ length cols)%nat)
           cols) in Hscan; [done| |constructor].
  intros vals.
  assert (Hdom : dom (fill_row 0 cols vals ∅) =@{gset string} list_to_set cols).
  { rewrite fill_row_dom, dom_empty_L. apply (right_id_L ∅ (∪)). }
  split; [done|].
  rewrite <-size_dom, Hdom. apply size_list_to_set_le.
Qed.

Lemma ExecuteQuery_row_keys_witness :
  (@ExecuteQuery ascii_tables sample_env "select id, name from retailers"
     ∅ 0 0).1 =
    (Some {| Columns := ["id"; "name"];
             Rows := [fill_row 0 ["id"; "name"]
                        [VString "r1"; VString "Acme"] ∅] |}, 3, None) ∧
  Forall (λ row : gmap string value,
            dom row = list_to_set ["id"; "name"] ∧
            (size row ≤ length ["id"; "name"])%nat)
    [fill_row 0 ["id"; "name"] [VString "r1"; VString "Acme"] ∅].
Proof.
  split; [reflexivity|].
  exact (@ExecuteQuery_row_keys ascii_tables sample_env
           "select id, name from retailers" ∅ 0 0
           {| Columns := ["id"; "name"];
              Rows := [fill_row 0 ["id"; "name"]
                         [VString "r1"; VString "Acme"] ∅] |} 3 eq_refl).
Defined.

(** A repeated column name keeps the value of the last such column. *)
Example fill_row_repeated_name :
  fill_row 0 ["id"; "id"] [VString "r1"; VString "r2"] ∅ =
  {[ "id" := VString "r2" ]}.
Proof. simpl. by rewrite insert_insert_eq. Qed.

(** ** The facade, on every path *)
Section FacadePaths.
Context `{UnicodeTables}.

(** A call that is not rejected at the gate has passed its three checks. *)
Lemma GetRetailers_gate env range req :
  (∃ msg, GetRetailers env range req =
            (StatusError {| status_code := InvalidArgument;
                            status_message := msg |}, [])) ∨
  (SqlQuery req ≠ "" ∧ 0 ≤ Limit req ∧ 0 ≤ Offset req).
Proof.
  unfold GetRetailers. destruct (decide (SqlQuery req = "")); [left; eauto|].
  destruct (Z.ltb_spec (Limit req) 0); [left; eauto|].
  destruct (Z.ltb_spec (Offset req) 0); [left; eauto|].
  by right.
Qed.

Lemma clamp_bounds limit :
  0 ≤ limit → 0 ≤ clamp limit ≤ 10000 ∧ clamp limit ≤ limit.
Proof. unfold clamp. destruct (Z.ltb_spec 10000 limit); lia. Qed.

(** The materialisation of a well-formed backend answer. *)
Lemma ExecuteQuery_materialises env q params limit offset cur cols data :
  q ≠ "" → ValidateQuery q = None →
  backend env (paginate q limit offset) (bind_parameters params) = inr cur →
  cursor_columns cur = inr cols →
  cursor_scans cur = map inr data →
  cursor_err cur = None →
  Forall (λ vals, length vals = length cols) data →
  ∃ rows,
    (ExecuteQuery env q params limit offset).1 =
      (Some {| Columns := cols; Rows := rows |}, elapsed_ms env, None) ∧
    length rows = length data.
Proof.
  intros Hq Hv Hb Hcols Hscans Herr Hall. unfold ExecuteQuery.
  rewrite decide_False by done. rewrite Hv, Hb, Hcols, Hscans.
  destruct (scan_rows_binds cols data (replicate (length cols) VNil) [])
    as (rows & -> & Hrows); [by rewrite length_replicate|done|].
  rewrite Herr. exists rows. split; [done|].
  symmetry. by eapply Forall2_length.
Qed.

End FacadePaths.

(** X7: a request with limit 0 that passes the gate and the Validator
    reaches the backend without any [LIMIT] clause: the text sent is the
    client's text, followed only by the [OFFSET] clause when the offset is
    positive.  The cap of 10000 bounds a positive limit only. *)
Theorem GetRetailers_limit_zero_unbounded `{UnicodeTables} (env : Env)
    (range : RangeOrder) (req : GetRetailersRequest) :
  SqlQuery req ≠ "" → ValidateQuery (SqlQuery req) = None →
  Limit req = 0 → 0 ≤ Offset req →
  (GetRetailers env range req).2 =
    [ EvExecuteQuery (SqlQuery req) (Parameters req) 0 (Offset req);
      EvQueryContext
        (if 0 <? Offset req
         then SqlQuery req +:+ " OFFSET " +:+ Itoa (Offset req)
         else SqlQuery req)
        (bind_parameters (Parameters req)) ].
Proof.
  intros Hq Hv Hl Ho.
  destruct (GetRetailers_admitted env range req Hq ltac:(lia) Ho)
    as [-> _].
  rewrite Hl. change (clamp 0) with 0.
  by rewrite (ExecuteQuery_issued _ _ _ _ _ Hq Hv).
Qed.

Lemma GetRetailers_limit_zero_unbounded_witness :
  let req := {| SqlQuery := "select id, name from retailers";
                Parameters := ∅; Limit := 0; Offset := 0 |} in
  (SqlQuery req ≠ "" ∧ @ValidateQuery ascii_tables (SqlQuery req) = None ∧
   Limit req = 0 ∧ 0 ≤ Offset req) ∧
  (@GetRetailers ascii_tables sample_env map_to_list req).2 =
    [ EvExecuteQuery (SqlQuery req) (Parameters req) 0 (Offset req);
      EvQueryContext
        (if 0 <? Offset req
         then SqlQuery req +:+ " OFFSET " +:+ Itoa (Offset req)
         else SqlQuery req)
        (bind_parameters (Parameters req)) ].
Proof.
  assert (Hq : "select id, name from retailers" ≠ "") by done.
  assert (Ho : 0 ≤ 0) by lia.
  split; [by repeat split|].
  exact (@GetRetailers_limit_zero_unbounded ascii_tables sample_env
           map_to_list
           {| SqlQuery := "select id, name from retailers";
              Parameters := ∅; Limit := 0; Offset := 0 |}
           Hq eq_refl eq_refl Ho).
Defined.

(** X8: every call of the handler either does nothing (it is rejected at
    the gate with an invalid-argument status) or calls the Executor exactly
    once, with the request's non-empty text and parameters, a limit between
    0 and 10000 that does not exceed the requested one, and the request's
    non-negative offset; the Executor in turn issues at most one backend
    query. *)
Theorem GetRetailers_calls_executor_once `{UnicodeTables} (env : Env)
    (range : RangeOrder) (req : GetRetailersRequest) :
  (∃ msg, GetRetailers env range req =
            (StatusError {| status_code := InvalidArgument;
                            status_message := msg |}, [])) ∨
  (∃ limit issued,
     (GetRetailers env range req).2 =
       EvExecuteQuery (SqlQuery req) (Parameters req) limit (Offset req)
       :: map (λ q, EvQueryContext q.1 q.2) issued ∧
     SqlQuery req ≠ "" ∧ 0 ≤ limit ≤ 10000 ∧ limit ≤ Limit req ∧
     0 ≤ Offset req ∧ (length issued ≤ 1)%nat).
Proof.
  destruct (GetRetailers_gate env range req) as [?|(Hq & Hl & Ho)];
    [by left|right].
  destruct (GetRetailers_admitted env range req Hq Hl Ho) as [Hev _].
  exists (clamp (Limit req)),
    (ExecuteQuery env (SqlQuery req) (Parameters req) (clamp (Limit req))
       (Offset req)).2.
  split; [exact Hev|].
  destruct (clamp_bounds (Limit req) Hl) as [? ?].
  repeat split; try done; try lia.
  destruct (ExecuteQuery_paths env (SqlQuery req) (Parameters req)
              (clamp (Limit req)) (Offset req)) as [(e & _ & _ & Hn)|[r ->]];
    [done|simpl; lia].
Qed.

(** X9: every response of the handler counts its own records, and it is
    either an error response (a non-empty message, no record, time 0) or a
    data response (an empty message and the measured time); it never mixes
    the two. *)
Theorem GetRetailers_response_shape `{UnicodeTables} (env : Env)
    (range : RangeOrder) (req : GetRetailersRequest)
    (resp : GetRetailersResponse) :
  (GetRetailers env range req).1 = Response resp →
  Count resp = Z.of_nat (length (Retailers resp)) ∧
  ((Error resp ≠ "" ∧ Retailers resp = [] ∧ ExecutionTimeMs resp = 0) ∨
   (Error resp = "" ∧ ExecutionTimeMs resp = elapsed_ms env)).
Proof.
  intros Hresp.
  destruct (GetRetailers_gate env range req) as [[msg Hrej]|(Hq & Hl & Ho)];
    [by rewrite Hrej in Hresp|].
  destruct (GetRetailers_admitted env range req Hq Hl Ho)
    as [_ [(err & He & Hout)|(result & He & Hout)]];
    rewrite Hout in Hresp; injection Hresp as <-; simpl.
  - split; [done|left]. split; [|done].
    destruct (ExecuteQuery_paths env (SqlQuery req) (Parameters req)
                (clamp (Limit req)) (Offset req))
      as [(e & He' & Hne & _)|[r Hr]].
    + rewrite He in He'. by injection He' as ->.
    + rewrite Hr in He. done.
  - split; [done|by right].
Qed.

Lemma GetRetailers_response_shape_witness :
  let req := {| SqlQuery := "select id, name from retailers";
                Parameters := ∅; Limit := 10; Offset := 0 |} in
  let resp := {| Retailers := [ {| Id := Some "r1"; Name := Some "Acme";
                                   CreatedAt := None |} ];
                 Count := 1; ExecutionTimeMs := 3; Error := "" |} in
  (@GetRetailers ascii_tables sample_env map_to_list req).1 = Response resp ∧
  (Count resp = Z.of_nat (length (Retailers resp)) ∧
   ((Error resp ≠ "" ∧ Retailers resp = [] ∧ ExecutionTimeMs resp = 0) ∨
    (Error resp = "" ∧ ExecutionTimeMs resp = elapsed_ms sample_env))).
Proof.
  assert (Hresp :
    (@GetRetailers ascii_tables sample_env map_to_list
       {| SqlQuery := "select id, name from retailers";
          Parameters := ∅; Limit := 10; Offset := 0 |}).1 =
    Response {| Retailers := [ {| Id := Some "r1"; Name := Some "Acme";
                                  CreatedAt := None |} ];
                Count := 1; ExecutionTimeMs := 3; Error := "" |})
    by (by vm_compute).
  split; [exact Hresp|].
  exact (@GetRetailers_response_shape ascii_tables sample_env map_to_list
           _ _ Hresp).
Defined.

(** X10: when the backend answers an admitted, accepted query with columns
    and well-formed rows, the handler returns a data response with one
    record per backend row: the count is the number of rows the backend
    returned, whatever their columns. *)
Theorem GetRetailers_counts_backend_rows `{UnicodeTables} (env : Env)
    (range : RangeOrder) (req : GetRetailersRequest) (cur : Cursor)
    (cols : list string) (data : list (list value)) :
  SqlQuery req ≠ "" → 0 ≤ Limit req → 0 ≤ Offset req →
  ValidateQuery (SqlQuery req) = None →
  backend env (paginate (SqlQuery req) (clamp (Limit req)) (Offset req))
    (bind_parameters (Parameters req)) = inr cur →
  cursor_columns cur = inr cols →
  cursor_scans cur = map inr data →
  cursor_err cur = None →
  Forall (λ vals, length vals = length cols) data →
  ∃ retailers,
    (GetRetailers env range req).1 =
      Response {| Retailers := retailers;
                  Count := Z.of_nat (length data);
                  ExecutionTimeMs := elapsed_ms env; Error := "" |} ∧
    length retailers = length data.
Proof.
  intros Hq Hl Ho Hv Hb Hcols Hscans Herr Hall.
  destruct (ExecuteQuery_materialises env _ _ _ _ cur cols data
              Hq Hv Hb Hcols Hscans Herr Hall) as (rows & Hexec & Hlen).
  destruct (GetRetailers_admitted env range req Hq Hl Ho)
    as [_ [(err & He & _)|(result & He & ->)]].
  - rewrite Hexec in He. done.
  - rewrite Hexec in He. injection He as <-.
    rewrite convertToRetailers_map, length_map. simpl. rewrite Hlen.
    eexists. split; [reflexivity|]. by rewrite length_map.
Qed.

Lemma GetRetailers_counts_backend_rows_witness :
  let req := {| SqlQuery := "select id, name from retailers";
                Parameters := ∅; Limit := 10; Offset := 0 |} in
  (SqlQuery req ≠ "" ∧ 0 ≤ Limit req ∧ 0 ≤ Offset req ∧
   @ValidateQuery ascii_tables (SqlQuery req) = None ∧
   backend sample_env
     (paginate (SqlQuery req) (clamp (Limit req)) (Offset req))
     (bind_parameters (Parameters req)) = inr sample_cursor ∧
   cursor_columns sample_cursor = inr ["id"; "name"] ∧
   cursor_scans sample_cursor = map inr [[VString "r1"; VString "Acme"]] ∧
   cursor_err sample_cursor = None ∧
   Forall (λ vals, length vals = length ["id"; "name"])
     [[VString "r1"; VString "Acme"]]) ∧
  ∃ retailers,
    (@GetRetailers ascii_tables sample_env map_to_list req).1 =
      Response {| Retailers := retailers;
                  Count := Z.of_nat (length [[VString "r1"; VString "Acme"]]);
                  ExecutionTimeMs := elapsed_ms sample_env; Error := "" |} ∧
    length retailers = length [[VString "r1"; VString "Acme"]].
Proof.
  assert (Hq : "select id, name from retailers" ≠ "") by done.
  assert (Hl : 0 ≤ 10) by lia.
  assert (Ho : 0 ≤ 0) by lia.
  assert (Hall : Forall (λ vals : list value,
                           length vals = length ["id"; "name"])
                   [[VString "r1"; VString "Acme"]]).
  { constructor; [reflexivity|constructor]. }
  split; [by repeat split|].
  exact (@GetRetailers_counts_backend_rows ascii_tables sample_env
           map_to_list
           {| SqlQuery := "select id, name from retailers";
              Parameters := ∅; Limit := 10; Offset := 0 |}
           sample_cursor ["id"; "name"] [[VString "r1"; VString "Acme"]]
           Hq Hl Ho eq_refl eq_refl eq_refl eq_refl eq_refl Hall).
Defined.

(** ** The Mapper on any row *)
Section Contributions.
Context {S E X : Type} (step : S → E → S) (get : S → option X)
  (contribution : E → option X).
Hypothesis get_step : ∀ r e,
  get (step r e) =
    match contribution e with Some x => Some x | None => get r end.

Lemma foldl_contribution_source l r x :
  get r = None → get (foldl step r l) = Some x →
  ∃ e, e ∈ l ∧ contribution e = Some x.
Proof.
  intros Hr. rewrite (foldl_last_contribution step get contribution get_step).
  rewrite Hr. destruct (last (omap contribution l)) as [y|] eqn:Hlast; [|done].
  intros [= ->]. apply last_Some_elem_of in Hlast.
  by apply list_elem_of_omap in Hlast.
Qed.

Lemma foldl_contribution_set l r e x :
  e ∈ l → contribution e = Some x → is_Some (get (foldl step r l)).
Proof.
  intros He Hx.
  rewrite (foldl_last_contribution step get contribution get_step).
  destruct (last (omap contribution l)) as [y|] eqn:Hlast; [by eexists|].
  apply last_None in Hlast.
  assert (Hin : x ∈ omap contribution l) by (apply list_elem_of_omap; eauto).
  rewrite Hlast in Hin. by apply elem_of_nil in Hin.
Qed.

End Contributions.

(** X11: for any row, colliding column names or not, and any order in which
    the runtime visits it, a field of the record that is set holds the value
    of some column of the field's name (up to case) and type, and a field is
    set as soon as the row has such a column; in particular a row without
    such columns, or with nil values only, gives the empty record. *)
Theorem map_row_within `{UnicodeTables} (range : RangeOrder)
    (row : gmap string value) :
  range_order range → maps_within row (map_row range row).
Proof.
  intros Hrange. unfold map_row.
  assert (Hin : ∀ k v, (k, v) ∈ range row ↔ row !! k = Some v).
  { intros k v. by rewrite (Hrange row), elem_of_map_to_list. }
  repeat split.
  - intros s Hs.
    apply (foldl_contribution_source map_column Id (string_column "id")
             map_column_Id) in Hs as ([k v] & He & [Hk ->]%string_column_Some);
      [|done].
    exists k. by apply Hin in He.
  - intros s Hs.
    apply (foldl_contribution_source map_column Name (string_column "name")
             map_column_Name) in Hs
      as ([k v] & He & [Hk ->]%string_column_Some); [|done].
    exists k. by apply Hin in He.
  - intros ts Hs.
    apply (foldl_contribution_source map_column CreatedAt
             (time_column "created_at") map_column_CreatedAt) in Hs
      as ([k v] & He & [Hk (t & -> & ->)]%time_column_Some); [|done].
    exists k, t. by apply Hin in He.
  - intros (k & s & Hk & Hv%Hin).
    apply (foldl_contribution_set map_column Id (string_column "id")
             map_column_Id _ _ (k, VString s) s); [done|].
    by apply string_column_Some.
  - intros (k & s & Hk & Hv%Hin).
    apply (foldl_contribution_set map_column Name (string_column "name")
             map_column_Name _ _ (k, VString s) s); [done|].
    by apply string_column_Some.
  - intros (k & t & Hk & Hv%Hin).
    apply (foldl_contribution_set map_column CreatedAt
             (time_column "created_at") map_column_CreatedAt _ _
             (k, VTime t) (timestamppb_New t)); [done|].
    apply time_column_Some. eauto.
Qed.

Lemma map_row_within_witness :
  range_order map_to_list ∧
  @maps_within ascii_tables
    {[ "id" := VString "a"; "ID" := VString "b" ]}
    (@map_row ascii_tables map_to_list
       {[ "id" := VString "a"; "ID" := VString "b" ]}).
Proof.
  assert (Hrange : range_order map_to_list) by (by intros m).
  split; [done|].
  exact (@map_row_within ascii_tables map_to_list
           {[ "id" := VString "a"; "ID" := VString "b" ]} Hrange).
Defined.

(** ** The streaming endpoint *)
Section StreamFacts.
Context `{UnicodeTables}.

(** The sending loop hands over a prefix of the records' messages and stops
    at the first failed [Send]. *)
Lemma send_retailers_spec send retailers : ∀ i,
  let full := map (λ retailer,
                     {| StreamRetailer := Some retailer; IsLast := false;
                        StreamExecutionTimeMs := 0 |}) retailers in
  match send_retailers send i retailers with
  | (None, sent) =>
      sent = full ∧ ∀ j, (j < length retailers)%nat → send (i + j)%nat = None
  | (Some err, sent) =>
      ∃ n, (n < length retailers)%nat ∧ send (i + n)%nat = Some err ∧
           sent = take (S n) full ∧
           ∀ j, (j < n)%nat → send (i + j)%nat = None
  end.
Proof.
  induction retailers as [|r rs IH]; intros i; simpl.
  - split; [done|]. intros j Hj. lia.
  - destruct (send i) as [err|] eqn:Hi.
    + exists 0%nat. rewrite Nat.add_0_r. repeat split; [lia|done|].
      intros j Hj. lia.
    + specialize (IH (S i)). simpl in IH.
      destruct (send_retailers send (S i) rs) as [[err|] sent].
      * destruct IH as (n & Hn & Hs & -> & Hbefore). exists (S n).
        split; [lia|]. split; [by rewrite <-Nat.add_succ_comm|].
        split; [done|]. intros [|j] Hj; [by rewrite Nat.add_0_r|].
        rewrite <-Nat.add_succ_comm. apply Hbefore. lia.
      * destruct IH as [-> Hall]. split; [done|].
        intros [|j] Hj; [by rewrite Nat.add_0_r|].
        rewrite <-Nat.add_succ_comm. apply Hall. lia.
Qed.

End StreamFacts.

(** X12: in the streaming endpoint a failure of the Executor is a transport
    failure: for a request that passes the gate, when the Executor fails the
    stream ends with an [Internal] status that carries the Executor's
    message, and no message is sent. *)
Theorem GetRetailersStream_executor_failure `{UnicodeTables} (env : Env)
    (range : RangeOrder) (send : SendOracle) (req : GetRetailersRequest)
    (err : string) :
  SqlQuery req ≠ "" → 0 ≤ Limit req → 0 ≤ Offset req →
  (ExecuteQuery env (SqlQuery req) (Parameters req) (clamp (Limit req))
     (Offset req)).1.2 = Some err →
  GetRetailersStream env range send req =
    (StreamStatus {| status_code := Internal; status_message := err |},
     (GetRetailers env range req).2, []).
Proof.
  intros Hq Hl Ho Herr. unfold GetRetailersStream.
  destruct (GetRetailers_admitted env range req Hq Hl Ho)
    as [_ [(e & He & Hout)|(result & He & _)]]; [|by rewrite He in Herr].
  assert (e = err) as -> by (rewrite He in Herr; by injection Herr).
  assert (Hne : err ≠ "").
  { destruct (ExecuteQuery_paths env (SqlQuery req) (Parameters req)
                (clamp (Limit req)) (Offset req))
      as [(e' & He' & Hne & _)|[r Hr]].
    - rewrite He in He'. by injection He' as ->.
    - rewrite Hr in He. done. }
  destruct (GetRetailers env range req) as [outcome events]. simpl in *.
  subst outcome. simpl. by rewrite decide_False.
Qed.

Lemma GetRetailersStream_executor_failure_witness :
  let req := {| SqlQuery := "select 1; drop table retailers";
                Parameters := ∅; Limit := 10; Offset := 0 |} in
  let err := "invalid query: query contains forbidden keyword: drop" in
  (SqlQuery req ≠ "" ∧ 0 ≤ Limit req ∧ 0 ≤ Offset req ∧
   (@ExecuteQuery ascii_tables sample_env (SqlQuery req) (Parameters req)
      (clamp (Limit req)) (Offset req)).1.2 = Some err) ∧
  @GetRetailersStream ascii_tables sample_env map_to_list (λ _, None) req =
    (StreamStatus {| status_code := Internal; status_message := err |},
     (@GetRetailers ascii_tables sample_env map_to_list req).2, []).
Proof.
  assert (Hq : "select 1; drop table retailers" ≠ "") by done.
  assert (Hl : 0 ≤ 10) by lia.
  assert (Ho : 0 ≤ 0) by lia.
  split; [by repeat split|].
  exact (@GetRetailersStream_executor_failure ascii_tables sample_env
           map_to_list (λ _, None)
           {| SqlQuery := "select 1; drop table retailers";
              Parameters := ∅; Limit := 10; Offset := 0 |}
           "invalid query: query contains forbidden keyword: drop"
           Hq Hl Ho eq_refl).
Defined.

(** X13: whatever the transport does, the messages handed to [Send] are a
    prefix of the complete stream of the handler's response (one message per
    record, in order, then the terminal marker with the execution time).
    The stream ends with a [nil] error only after the whole stream was
    sent; a failed [Send] ends it at once with that error, all earlier
    sends having succeeded; a status error is returned before anything is
    sent; the stream never panics. *)
Theorem GetRetailersStream_prefix `{UnicodeTables} (env : Env)
    (range : RangeOrder) (send : SendOracle) (req : GetRetailersRequest) :
  let '(outcome, _, sent) := GetRetailersStream env range send req in
  match outcome with
  | StreamDone =>
      ∃ resp, (GetRetailers env range req).1 = Response resp ∧
              sent = stream_messages resp
  | StreamSendError err =>
      ∃ resp n, (GetRetailers env range req).1 = Response resp ∧
                send n = Some err ∧ (∀ j, (j < n)%nat → send j = None) ∧
                sent = take (S n) (stream_messages resp)
  | StreamStatus _ => sent = []
  | StreamPanic => False
  end.
Proof.
  unfold GetRetailersStream.
  pose proof (GetRetailers_no_panic env range req) as Hnp.
  destruct (GetRetailers env range req) as [[st|resp|] events]; simpl in *;
    [done| |done].
  destruct (decide (Error resp = "")); [|done].
  pose proof (send_retailers_spec send (Retailers resp) 0) as Hloop.
  simpl in Hloop. unfold stream_messages.
  destruct (send_retailers send 0 (Retailers resp)) as [[err|] sent].
  - destruct Hloop as (n & Hn & Hs & -> & Hbefore).
    exists resp, n. repeat split; [done|done|].
    rewrite take_app_le; [done|]. rewrite length_map. lia.
  - destruct Hloop as [-> Hall].
    destruct (send (length (Retailers resp))) as [err|] eqn:Hend.
    + exists resp, (length (Retailers resp)). repeat split; [done|done|].
      rewrite take_ge; [done|]. rewrite length_app, length_map. simpl. lia.
    + by exists resp.
Qed.

(** X14: when the handler answers with data and every [Send] succeeds, the
    stream is complete: one message per record, in the order of the records,
    none of them marked last, then one terminal message, marked last, that
    carries no record and the execution time. *)
Theorem GetRetailersStream_complete `{UnicodeTables} (env : Env)
    (range : RangeOrder) (send : SendOracle) (req : GetRetailersRequest)
    (resp : GetRetailersResponse) :
  (GetRetailers env range req).1 = Response resp → Error resp = "" →
  (∀ j, (j ≤ length (Retailers resp))%nat → send j = None) →
  GetRetailersStream env range send req =
    (StreamDone, (GetRetailers env range req).2, stream_messages resp).
Proof.
  intros Hresp Herr Hsend. unfold GetRetailersStream.
  destruct (GetRetailers env range req) as [outcome events]. simpl in *.
  subst outcome. rewrite decide_True by done.
  pose proof (send_retailers_spec send (Retailers resp) 0) as Hloop.
  simpl in Hloop.
  destruct (send_retailers send 0 (Retailers resp)) as [[err|] sent].
  - destruct Hloop as (n & Hn & Hs & _). rewrite Hsend in Hs; [done|lia].
  - destruct Hloop as [-> _]. by rewrite Hsend.
Qed.

Lemma GetRetailersStream_complete_witness :
  let req := {| SqlQuery := "select id, name from retailers";
                Parameters := ∅; Limit := 10; Offset := 0 |} in
  let resp := {| Retailers := [ {| Id := Some "r1"; Name := Some "Acme";
                                   CreatedAt := None |} ];
                 Count := 1; ExecutionTimeMs := 3; Error := "" |} in
  ((@GetRetailers ascii_tables sample_env map_to_list req).1 = Response resp ∧
   Error resp = "" ∧
   (∀ j, (j ≤ length (Retailers resp))%nat → (λ _ : nat, None) j
      = @None string)) ∧
  @GetRetailersStream ascii_tables sample_env map_to_list (λ _, None) req =
    (StreamDone, (@GetRetailers ascii_tables sample_env map_to_list req).2,
     stream_messages resp).
Proof.
  assert (Hresp :
    (@GetRetailers ascii_tables sample_env map_to_list
       {| SqlQuery := "select id, name from retailers";
          Parameters := ∅; Limit := 10; Offset := 0 |}).1 =
    Response {| Retailers := [ {| Id := Some "r1"; Name := Some "Acme";
                                  CreatedAt := None |} ];
                Count := 1; ExecutionTimeMs := 3; Error := "" |})
    by (by vm_compute).
  split; [by repeat split|].
  exact (@GetRetailersStream_complete ascii_tables sample_env map_to_list
           (λ _, None) _ _ Hresp eq_refl (λ _ _, eq_refl)).
Defined.

(** A stream whose second [Send] fails: the terminal marker is attempted
    and nothing follows. *)
Example GetRetailersStream_broken_pipe :
  (@GetRetailersStream ascii_tables sample_env map_to_list
     (λ i, if decide (i = 1%nat) then Some "broken pipe" else None)
     {| SqlQuery := "select id, name from retailers"; Parameters := ∅;
        Limit := 10; Offset := 0 |}).1.1 = StreamSendError "broken pipe".
Proof. by vm_compute. Qed.

(** ** Health check *)

(** The health check never fails at the transport level and never
    consults the Validator: it sends the one query [SELECT 1] without
    arguments, reports healthy exactly when the backend answers it without
    error, and then carries no error message; otherwise it carries the
    backend's message. *)
Lemma HealthCheck_probe (env : Env) (uptime : Z) :
  let '(resp, issued) := HealthCheck env uptime in
  issued = [("SELECT 1", [])] ∧
  Version resp = "0.1.0" ∧ UptimeSeconds resp = uptime ∧
  match backend env "SELECT 1" [] with
  | inr _ => Healthy resp = true ∧ HealthError resp = ""
  | inl err => Healthy resp = false ∧ HealthError resp = err
  end.
Proof.
  unfold HealthCheck, TestConnection.
  by destruct (backend env "SELECT 1" []).
Qed.

(** ** Configuration and connections *)

(** A configuration is valid exactly when the host, the database and
    the user name are non-empty and the port lies between 1 and 65535; the
    password, the TLS flag and the debug flag play no part. *)
Lemma Validate_accepts_iff (c : Config) :
  Validate c = None ↔
  Host c ≠ "" ∧ 1 ≤ Port c ≤ 65535 ∧ Database c ≠ "" ∧ Username c ≠ "".
Proof.
  unfold Validate.
  destruct (decide (Host c = "")); [by split; [|intros [? _]]|].
  destruct (Z.leb_spec (Port c) 0); simpl;
    [split; [done|intros (_ & ? & _); lia]|].
  destruct (Z.ltb_spec 65535 (Port c)); simpl;
    [split; [done|intros (_ & ? & _); lia]|].
  destruct (decide (Database c = "")); [by split; [|intros (_ & _ & ? & _)]|].
  destruct (decide (Username c = "")); [by split; [|intros (_ & _ & _ & ?)]|].
  split; [|done]. intros _. repeat split; try done; lia.
Qed.

(** The first failed check is the one reported. *)
Example Validate_reports_host_first :
  Validate {| Host := ""; Port := 0; Database := ""; Username := "";
              Password := ""; UseTLS := false; Debug := false |} =
  Some "host cannot be empty".
Proof. reflexivity. Qed.

(** X15: [NewClient] returns a client or an error, never both and never
    neither.  With a client, the configuration is valid and both
    connections were opened once and not closed.  With an error, the message
    is non-empty and every connection that was opened has been closed; with
    an invalid configuration no connection is attempted at all. *)
Theorem NewClient_no_leak (d : Driver) (cfg : Config) :
  let '((client, err), events) := NewClient d cfg in
  match client, err with
  | Some c, None =>
      Validate cfg = None ∧ conn c = true ∧ db c = true ∧ config c = cfg ∧
      ∀ h, opened h events = 1%nat ∧ closed h events = 0%nat
  | None, Some e =>
      e ≠ "" ∧ (∀ h, opened h events = closed h events) ∧
      (Validate cfg ≠ None → events = [])
  | _, _ => False
  end.
Proof.
  unfold NewClient. destruct (Validate cfg) as [e|] eqn:Hv.
  { split; [apply literal_app_nonempty|]. split; [by intros []|done]. }
  destruct (ping_db d) as [e|].
  { split; [apply literal_app_nonempty|]. split; [by intros []|done]. }
  destruct (open_native d) as [e|].
  { split; [apply literal_app_nonempty|]. split; [by intros []|done]. }
  destruct (ping_native d) as [e|].
  { split; [apply literal_app_nonempty|]. split; [by intros []|done]. }
  repeat split; by destruct h.
Qed.

(** X16: [Close] closes every connection the client holds, the native one
    too when closing the pool fails, and returns [nil] exactly when no
    close failed. *)
Theorem Close_closes_all (d : Driver) (c : Client) :
  let '(err, events) := Close d c in
  closed SqlDB events = (if db c then 1 else 0)%nat ∧
  closed NativeConn events = (if conn c then 1 else 0)%nat ∧
  (∀ h, opened h events = 0%nat) ∧
  (err = None ↔
   (db c = true → close_db d = None) ∧
   (conn c = true → close_native d = None)).
Proof.
  unfold Close.
  destruct (db c), (conn c), (close_db d), (close_native d); simpl;
    (split; [done|]); (split; [done|]); (split; [by intros []|]);
    (split; [intros Herr; split; intros Hh; done|]);
    intros [Hd Hc];
    first [ done | by specialize (Hd eq_refl) | by specialize (Hc eq_refl) ].
Qed.

(** X17: a client obtained from [NewClient] and then closed leaves no
    connection behind: over the two calls each connection is opened once
    and closed once, whatever [Close] returns. *)
Theorem NewClient_then_Close_balanced (d : Driver) (cfg : Config)
    (c : Client) (events : list ConnEvent) :
  NewClient d cfg = ((Some c, None), events) →
  ∀ h, opened h (events ++ (Close d c).2) = 1%nat ∧
       closed h (events ++ (Close d c).2) = 1%nat.
Proof.
  unfold NewClient. destruct (Validate cfg); [done|].
  destruct (ping_db d); [done|]. destruct (open_native d); [done|].
  destruct (ping_native d); [done|]. intros [= <- <-] h. unfold Close. simpl.
  destruct (close_db d), (close_native d), h; by simpl.
Qed.

Lemma NewClient_then_Close_balanced_witness :
  let c := {| conn := true; db := true; config := sample_config |} in
  let events := [EvOpen SqlDB; EvPing SqlDB; EvOpen NativeConn;
                 EvPing NativeConn] in
  NewClient healthy_driver sample_config = ((Some c, None), events) ∧
  ∀ h, opened h (events ++ (Close healthy_driver c).2) = 1%nat ∧
       closed h (events ++ (Close healthy_driver c).2) = 1%nat.
Proof.
  split; [reflexivity|].
  exact (NewClient_then_Close_balanced healthy_driver sample_config
           {| conn := true; db := true; config := sample_config |}
           [EvOpen SqlDB; EvPing SqlDB; EvOpen NativeConn; EvPing NativeConn]
           eq_refl).
Defined.

(** ** Column detection *)

Lemma str_length_app a b :
  String.length (a +:+ b) = (String.length a + String.length b)%nat.
Proof.
  induction a as [|c a IH]; [done|]. rewrite str_app_cons. simpl.
  by rewrite IH.
Qed.

Lemma length_map_bytes f s : String.length (map_bytes f s) = String.length s.
Proof. induction s as [|c s IH]; simpl; [done|]. by rewrite IH. Qed.

Lemma ToLower_ascii_length `{UnicodeTables} s :
  all_ascii s = true → String.length (ToLower s) = String.length s.
Proof. intros Hs. unfold ToLower. rewrite Hs. apply length_map_bytes. Qed.

(** [Index] returns [-1] or the length of what precedes an occurrence. *)
Lemma Index_found s w :
  Index s w ≠ -1 →
  ∃ a b, s = a +:+ w +:+ b ∧ Z.of_nat (String.length a) = Index s w.
Proof.
  induction s as [|c s IH]; simpl.
  - destruct (HasPrefix "" w) eqn:Hp; [|done]. intros _.
    apply HasPrefix_true in Hp as [t Ht]. by exists "", t.
  - destruct (HasPrefix (String c s) w) eqn:Hp.
    + intros _. apply HasPrefix_true in Hp as [t Ht]. by exists "", t.
    + destruct (Z.ltb_spec (Index s w) 0) as [|Hge]; [done|]. intros _.
      destruct IH as (a & b & -> & Ha); [lia|].
      exists (String c a), b. split; [done|]. simpl. lia.
Qed.

(** An occurrence of [from] that starts after the start of an occurrence of
    [select] starts after its end. *)
Lemma from_after_select a : ∀ a' b b',
  a +:+ "select" +:+ b = a' +:+ "from" +:+ b' →
  (String.length a < String.length a')%nat →
  (String.length a + 6 ≤ String.length a')%nat.
Proof.
  induction a as [|c a IH]; intros a' b b' Heq Hlt.
  - str_norm_in Heq.
    do 6 (destruct a' as [|? a']; str_norm_in Heq;
          [first [simpl in Hlt; lia | discriminate]|];
          injection Heq as <- Heq).
    simpl. lia.
  - destruct a' as [|c' a']; [simpl in Hlt; lia|].
    rewrite !str_app_cons in Heq. injection Heq as <- Heq. simpl in *.
    specialize (IH a' b b' Heq). lia.
Qed.

(** X18: on a query made of ASCII bytes [DetectColumns] never panics: the
    bounds it takes from the lower-cased text are valid in the text as
    given, because the first [from] after the start of a [select] lies
    beyond its end. *)
Theorem DetectColumns_ascii_no_panic `{UnicodeTables} (query : string) :
  all_ascii query = true → DetectColumns query ≠ DetectPanic.
Proof.
  intros Hascii. unfold DetectColumns.
  pose proof (ToLower_ascii_length query Hascii) as Hlen.
  destruct (Z.eqb_spec (Index (ToLower query) "select") (-1)) as [|Hs];
    [done|].
  destruct (Z.eqb_spec (Index (ToLower query) "from") (-1)) as [|Hf];
    [done|].
  destruct (Z.leb_spec (Index (ToLower query) "from")
              (Index (ToLower query) "select")) as [|Hlt]; [done|].
  simpl.
  destruct (Index_found _ _ Hs) as (a & b & Hab & Ha).
  destruct (Index_found _ _ Hf) as (a' & b' & Hab' & Ha').
  assert (Hgap : (String.length a + 6 ≤ String.length a')%nat).
  { apply (from_after_select a a' b b'); [congruence|lia]. }
  assert (Hend : (String.length a' + 4 ≤ String.length query)%nat).
  { rewrite <-Hlen, Hab', !str_length_app. simpl. lia. }
  unfold slice.
  destruct (Z.leb_spec 0 (Index (ToLower query) "select" + 6)); [|lia].
  destruct (Z.leb_spec (Index (ToLower query) "select" + 6)
              (Index (ToLower query) "from")); [|lia].
  destruct (Z.leb_spec (Index (ToLower query) "from")
              (Z.of_nat (String.length query))); [|lia].
  simpl. destruct (Contains _ "*"); done.
Qed.

Lemma DetectColumns_ascii_no_panic_witness :
  all_ascii "SELECT id, name FROM retailers" = true ∧
  @DetectColumns ascii_tables "SELECT id, name FROM retailers" ≠ DetectPanic.
Proof.
  split; [reflexivity|].
  exact (@DetectColumns_ascii_no_panic ascii_tables
           "SELECT id, name FROM retailers" eq_refl).
Defined.

(** X19: a map returned by [DetectColumns] always has the three keys [id],
    [name] and [created_at] and no other, whatever the select list holds:
    a caller may index it with any of the three without a presence check. *)
Theorem DetectColumns_keys `{UnicodeTables} (query : string)
    (columns : gmap string bool) :
  DetectColumns query = Detected columns →
  dom columns = {[ "id"; "name"; "created_at" ]}.
Proof.
  unfold DetectColumns.
  destruct (_ || _ || _); [done|].
  destruct (slice _ _ _) as [part|]; [|done].
  destruct (Contains (TrimSpace part) "*").
  { intros [= <-]. rewrite dom_fmap_L. by vm_compute. }
  destruct (Contains _ "id"), (Contains _ "name"), (Contains _ "created_at");
    intros [= <-]; by vm_compute.
Qed.

Lemma DetectColumns_keys_witness :
  let columns : gmap string bool :=
    {[ "id" := true; "name" := true; "created_at" := false ]} in
  @DetectColumns ascii_tables "SELECT id, name FROM retailers"
    = Detected columns ∧
  dom columns = {[ "id"; "name"; "created_at" ]}.
Proof.
  assert (Hd : @DetectColumns ascii_tables "SELECT id, name FROM retailers"
               = Detected {[ "id" := true; "name" := true;
                             "created_at" := false ]})
    by (by vm_compute).
  split; [exact Hd|].
  exact (@DetectColumns_keys ascii_tables "SELECT id, name FROM retailers"
           _ Hd).
Defined.

(** The detection works on substrings: a column [valid_until] marks [id]. *)
Example DetectColumns_substring :
  @DetectColumns ascii_tables "select valid_until from offers" =
  Detected {[ "id" := true; "name" := false; "created_at" := false ]}.
Proof. by vm_compute. Qed.

(** ** The logging helper *)

Lemma length_take_bytes n s :
  String.length (take_bytes n s) = Nat.min n (String.length s).
Proof.
  revert s; induction n as [|n IH]; intros [|c s]; simpl; try done.
  by rewrite IH.
Qed.

(** X20: for a non-negative bound [truncateString] returns the text itself
    when it has at most [maxLen] bytes, and otherwise its first [maxLen]
    bytes followed by three dots; the result never has more than
    [maxLen + 3] bytes. *)
Theorem truncateString_bound (s : string) (maxLen : Z) :
  0 ≤ maxLen →
  ∃ r, truncateString s maxLen = Some r ∧
       Z.of_nat (String.length r) ≤ maxLen + 3 ∧
       (Z.of_nat (String.length s) ≤ maxLen → r = s) ∧
       (maxLen < Z.of_nat (String.length s) →
        r = take_bytes (Z.to_nat maxLen) s +:+ "..." ∧
        Z.of_nat (String.length r) = maxLen + 3).
Proof.
  intros Hmax. unfold truncateString.
  destruct (Z.leb_spec (Z.of_nat (String.length s)) maxLen) as [Hle|Hgt].
  - exists s. split; [done|]. split; [lia|]. split; [done|]. intros ?. lia.
  - assert (Hs : slice s 0 maxLen = Some (take_bytes (Z.to_nat maxLen) s)).
    { unfold slice. rewrite (proj2 (Z.leb_le 0 maxLen)) by lia.
      rewrite (proj2 (Z.leb_le maxLen _)) by lia. simpl.
      by rewrite Z.sub_0_r. }
    rewrite Hs.
    assert (Hlen : Z.of_nat (String.length
                     (take_bytes (Z.to_nat maxLen) s +:+ "...")) = maxLen + 3).
    { rewrite str_length_app, length_take_bytes. simpl. lia. }
    eexists. split; [reflexivity|]. split; [lia|]. split; [lia|done].
Qed.

Lemma truncateString_bound_witness :
  0 ≤ 6 ∧
  ∃ r, truncateString "select id from retailers" 6 = Some r ∧
       Z.of_nat (String.length r) ≤ 6 + 3 ∧
       (Z.of_nat (String.length "select id from retailers") ≤ 6 →
        r = "select id from retailers") ∧
       (6 < Z.of_nat (String.length "select id from retailers") →
        r = take_bytes (Z.to_nat 6) "select id from retailers" +:+ "..." ∧
        Z.of_nat (String.length r) = 6 + 3).
Proof.
  assert (Hmax : 0 ≤ 6) by lia.
  split; [exact Hmax|].
  exact (truncateString_bound "select id from retailers" 6 Hmax).
Defined.

Example truncateString_example :
  truncateString "select id from retailers" 6 = Some "select...".
Proof. reflexivity. Qed.

(** X21: with a negative bound [truncateString] panics on every text: no
    text is short enough to be returned as it is, and the slice [s[:maxLen]]
    is out of range. *)
Theorem truncateString_negative_panics (s : string) (maxLen : Z) :
  maxLen < 0 → truncateString s maxLen = None.
Proof.
  intros Hneg. unfold truncateString, slice.
  destruct (Z.leb_spec (Z.of_nat (String.length s)) maxLen); [lia|].
  by rewrite (proj2 (Z.leb_gt 0 maxLen)) by lia.
Qed.

Lemma truncateString_negative_panics_witness :
  -1 < 0 ∧ truncateString "" (-1) = None.
Proof.
  assert (Hneg : -1 < 0) by lia.
  split; [exact Hneg|].
  exact (truncateString_negative_panics "" (-1) Hneg).
Defined.

(** ** The load generator's statistics *)

Lemma min_loop_spec ds : ∀ m,
  (min_loop m ds = m ∨ min_loop m ds ∈ ds) ∧ min_loop m ds ≤ m ∧
  ∀ d, d ∈ ds → min_loop m ds ≤ d.
Proof.
  induction ds as [|d0 ds IH]; intros m; simpl.
  - split; [by left|]. split; [lia|]. by intros d ?%elem_of_nil.
  - destruct (IH (if d0 <? m then d0 else m)) as (Hin & Hle & Hall).
    destruct (Z.ltb_spec d0 m).
    + split; [right; destruct Hin as [->|?]; [left|by right]|].
      split; [lia|]. intros d [->|?]%elem_of_cons; [lia|by apply Hall].
    + split; [destruct Hin as [->|?]; [by left|right; by right]|].
      split; [lia|]. intros d [->|?]%elem_of_cons; [lia|by apply Hall].
Qed.

Lemma max_loop_spec ds : ∀ m,
  (max_loop m ds = m ∨ max_loop m ds ∈ ds) ∧ m ≤ max_loop m ds ∧
  ∀ d, d ∈ ds → d ≤ max_loop m ds.
Proof.
  induction ds as [|d0 ds IH]; intros m; simpl.
  - split; [by left|]. split; [lia|]. by intros d ?%elem_of_nil.
  - destruct (IH (if m <? d0 then d0 else m)) as (Hin & Hle & Hall).
    destruct (Z.ltb_spec m d0).
    + split; [right; destruct Hin as [->|?]; [left|by right]|].
      split; [lia|]. intros d [->|?]%elem_of_cons; [lia|by apply Hall].
    + split; [destruct Hin as [->|?]; [by left|right; by right]|].
      split; [lia|]. intros d [->|?]%elem_of_cons; [lia|by apply Hall].
Qed.

Lemma calculateMin_spec ds :
  ds ≠ [] → calculateMin ds ∈ ds ∧ ∀ d, d ∈ ds → calculateMin ds ≤ d.
Proof.
  destruct ds as [|d0 ds]; [done|]. intros _. unfold calculateMin.
  destruct (min_loop_spec (d0 :: ds) d0) as ([->|?] & _ & ?);
    [split; [left|done]|done].
Qed.

Lemma calculateMax_spec ds :
  ds ≠ [] → calculateMax ds ∈ ds ∧ ∀ d, d ∈ ds → d ≤ calculateMax ds.
Proof.
  destruct ds as [|d0 ds]; [done|]. intros _. unfold calculateMax.
  destruct (max_loop_spec (d0 :: ds) d0) as ([->|?] & _ & ?);
    [split; [left|done]|done].
Qed.

(** X22: on a non-empty list of durations [calculateMin] and
    [calculateMax] return elements of the list, the one below and the other
    above every element. *)
Theorem calculateMin_Max_bounds (durations : list Z) :
  durations ≠ [] →
  calculateMin durations ∈ durations ∧ calculateMax durations ∈ durations ∧
  ∀ d, d ∈ durations → calculateMin durations ≤ d ≤ calculateMax durations.
Proof.
  intros Hne.
  destruct (calculateMin_spec durations Hne) as [? Hmin].
  destruct (calculateMax_spec durations Hne) as [? Hmax].
  split; [done|]. split; [done|]. intros d Hd. split; auto.
Qed.

Lemma calculateMin_Max_bounds_witness :
  [7; 3; 10; 5] ≠ [] ∧
  (calculateMin [7; 3; 10; 5] ∈ [7; 3; 10; 5] ∧
   calculateMax [7; 3; 10; 5] ∈ [7; 3; 10; 5] ∧
   ∀ d, d ∈ [7; 3; 10; 5] →
        calculateMin [7; 3; 10; 5] ≤ d ≤ calculateMax [7; 3; 10; 5]).
Proof.
  assert (Hne : [7; 3; 10; 5] ≠ @nil Z) by done.
  split; [exact Hne|].
  exact (calculateMin_Max_bounds [7; 3; 10; 5] Hne).
Defined.

(** On the empty list both return 0. *)
Example calculateMin_Max_empty : calculateMin [] = 0 ∧ calculateMax [] = 0.
Proof. done. Qed.

Lemma wrap64_small z : - 2 ^ 63 ≤ z < 2 ^ 63 → wrap64 z = z.
Proof. intros Hz. unfold wrap64. rewrite Z.mod_small; lia. Qed.

Lemma sum_loop_exact ds : ∀ total,
  0 ≤ total → Forall (λ d, 0 ≤ d) ds → total + total_of ds < 2 ^ 63 →
  sum_loop total ds = total + total_of ds.
Proof.
  induction ds as [|d ds IH]; intros total Ht Hall Hsum; simpl in *.
  - lia.
  - apply Forall_cons in Hall as [Hd Hall].
    assert (0 ≤ total_of ds).
    { clear -Hall. induction Hall; simpl; lia. }
    rewrite wrap64_small by lia. rewrite IH; [lia|lia|done|lia].
Qed.

Lemma total_of_bounds lo hi ds :
  Forall (λ d, lo ≤ d ≤ hi) ds →
  Z.of_nat (length ds) * lo ≤ total_of ds ≤ Z.of_nat (length ds) * hi.
Proof. induction 1; simpl; lia. Qed.

(** X23: for non-negative durations whose sum fits in an [int64], the
    average lies between the minimum and the maximum, and it is the sum
    divided by the count, rounded down. *)
Theorem calculateAverage_between (durations : list Z) :
  durations ≠ [] → Forall (λ d, 0 ≤ d) durations →
  total_of durations < 2 ^ 63 →
  calculateAverage durations =
    total_of durations / Z.of_nat (length durations) ∧
  calculateMin durations ≤ calculateAverage durations
    ≤ calculateMax durations.
Proof.
  intros Hne Hall Hsum.
  destruct (calculateMin_spec durations Hne) as [Hmin_in Hmin].
  destruct (calculateMax_spec durations Hne) as [Hmax_in Hmax].
  assert (Hn : 0 < Z.of_nat (length durations)).
  { destruct durations; [done|]. simpl. lia. }
  assert (Hpos : 0 ≤ total_of durations).
  { clear -Hall. induction Hall; simpl; lia. }
  assert (Hbounds : Forall (λ d, calculateMin durations ≤ d
                                 ≤ calculateMax durations) durations).
  { apply Forall_forall. intros d Hd. split; auto. }
  apply total_of_bounds in Hbounds.
  assert (Havg : calculateAverage durations =
                 total_of durations / Z.of_nat (length durations)).
  { unfold calculateAverage. destruct durations as [|d0 ds]; [done|].
    rewrite sum_loop_exact by (done || lia). rewrite Z.add_0_l.
    rewrite Z.quot_div_nonneg by lia.
    apply wrap64_small. split.
    - pose proof (Z.div_pos (total_of (d0 :: ds))
                    (Z.of_nat (length (d0 :: ds))) Hpos Hn). lia.
    - apply Z.div_lt_upper_bound; [lia|]. nia. }
  split; [done|]. rewrite Havg. split.
  - apply Z.div_le_lower_bound; lia.
  - apply Z.div_le_upper_bound; lia.
Qed.

Lemma calculateAverage_between_witness :
  ([3; 10; 5] ≠ [] ∧ Forall (λ d, 0 ≤ d) [3; 10; 5] ∧
   total_of [3; 10; 5] < 2 ^ 63) ∧
  (calculateAverage [3; 10; 5] =
     total_of [3; 10; 5] / Z.of_nat (length [3; 10; 5]) ∧
   calculateMin [3; 10; 5] ≤ calculateAverage [3; 10; 5]
     ≤ calculateMax [3; 10; 5]).
Proof.
  assert (Hne : [3; 10; 5] ≠ @nil Z) by done.
  assert (Hall : Forall (λ d, 0 ≤ d) [3; 10; 5]).
  { repeat constructor; lia. }
  assert (Hsum : total_of [3; 10; 5] < 2 ^ 63) by (by vm_compute).
  split; [by repeat split|].
  exact (calculateAverage_between [3; 10; 5] Hne Hall Hsum).
Defined.

(** Without the bound on the sum the average can leave the range: two
    durations of 2^62 nanoseconds have a negative average. *)
Example calculateAverage_overflow :
  calculateAverage [2 ^ 62; 2 ^ 62] = - 2 ^ 62.
Proof. by vm_compute. Qed.
